(** * ovs-p4ctl: the P4Runtime control utility

    A shallow embedding of [ovs_p4ctl.py]: the wire value codec
    ([encodeNum], [decodeNum], [encode]), the schema index
    ([P4InfoHelper]), the error decoder ([P4RuntimeErrorIterator]), the
    arbitration handshake and the action-profile commands.

    Python values are modelled as they are used by the utility:
    - [str] is a list of characters ([list ascii]: the code points below
      256), [bytes] is a list of [byte];
    - [int] is [Z] (unbounded);
    - a raised exception is the [Raise] case of [result];
    - a [dict] that is iterated with [.items()] is an association list in
      insertion order (its keys are distinct);
    - protobuf messages are records and their repeated fields are lists;
      assigning to a scalar field runs the check of the generated class
      ([uint32_field], [int32_field], [bytes_field]): a value of another
      type raises [TypeError], an integer out of the field's range raises
      [ValueError]. The numbers that come from a schema (ids and bit
      widths of a parsed [P4Info]) are within their fields' ranges and
      are not checked again;
    - the receiver of the stream channel is a thread of its own, which
      is not a daemon: [receiver_running] records that it has not ended,
      and [interpreter_exit] that the process cannot exit before it
      has. *)

From Stdlib Require Import ZArith NArith Lia Bool List Ascii String.
From Stdlib Require Import Strings.Byte.
From Stdlib Require Import QArith Lqa.
Import ListNotations.

Set Warnings "-register-all".

Local Open Scope Z_scope.

(* ===================================================================== *)
(** ** Python values, exceptions and results *)
(* ===================================================================== *)

Abbreviation str := (list ascii).
Abbreviation bytes := (list byte).

(** A string literal of the source. *)
Definition lit (s : string) : str := list_ascii_of_string s.

(** *** gRPC and [google.rpc] structures carried by exceptions *)

(** [grpc.StatusCode.UNKNOWN] and [code_pb2.OK], by their numbers. *)
Definition StatusCode_UNKNOWN : Z := 2.
Definition code_pb2_OK : Z := 0.

(** [p4.v1.Error] *)
Record P4Error : Type := {
  canonical_code : Z;
  message : str;
  space : str;
  code : Z
}.

(** A [google.protobuf.Any]: either a packed [p4.v1.Error], or a message
    of another type, which [Unpack] refuses. *)
Inductive Any : Type :=
| Any_p4_Error (e : P4Error)
| Any_other (type_url : str).

(** [google.rpc.Status] *)
Record Status : Type := {
  status_code : Z;
  status_message : str;
  details : list Any
}.

(** A [grpc.RpcError] as the client sees it. *)
Record RpcError : Type := {
  rpc_code : Z;
  rpc_details : str;
  trailing_metadata : list (str * bytes)
}.

(** The exception classes that the modelled code raises. *)
Inductive exn : Type :=
| AssertionError
| AttributeError
| UnboundLocalError
| PyException                      (* [raise Exception(...)] *)
| ValueError
| IndexError
| TypeError
| BinasciiError                    (* [binascii.Error] of the hex codec *)
| OSError                          (* [socket.inet_aton] on a bad address *)
| DecodeError                      (* protobuf [ParseFromString] *)
| struct_error                     (* [struct.unpack] on a wrong size *)
| StopIteration
| SystemExit (status : Z)
| grpc_RpcError (e : RpcError)
| P4RuntimeErrorFormatException (msg : string)
| P4RuntimeWriteException (errors : list (nat * P4Error))
| P4RuntimeException (grpc_error : RpcError).

Inductive result (A : Type) : Type :=
| Ok (a : A)
| Raise (e : exn).
Arguments Ok {A} a.
Arguments Raise {A} e.

Definition bind {A B} (r : result A) (k : A -> result B) : result B :=
  match r with
  | Ok a => k a
  | Raise e => Raise e
  end.

Declare Scope py_scope.
Delimit Scope py_scope with py.
Notation "x <- c1 ;; c2" := (bind c1 (fun x => c2))
  (at level 61, c1 at next level, right associativity) : py_scope.
Notation "' pat <- c1 ;; c2" := (bind c1 (fun x => match x with pat => c2 end))
  (at level 61, pat pattern, c1 at next level, right associativity) : py_scope.
Local Open Scope py_scope.

(** [assert c] *)
Definition py_assert (c : bool) : result unit :=
  if c then Ok tt else Raise AssertionError.

(* ===================================================================== *)
(** ** Characters, [str.isdigit], [int] *)
(* ===================================================================== *)

Definition ascii_eqb (a b : ascii) : bool := Ascii.eqb a b.

Fixpoint str_eqb (s t : str) : bool :=
  match s, t with
  | [], [] => true
  | a :: s', b :: t' => ascii_eqb a b && str_eqb s' t'
  | _, _ => false
  end.

Definition len {A} (l : list A) : Z := Z.of_nat (List.length l).

(** A decimal digit: the class [\d] of the patterns, and the digits that
    [int] reads. *)
Definition is_digit (c : ascii) : bool :=
  let n := N_of_ascii c in (48 <=? n)%N && (n <=? 57)%N.

Definition digit_val (c : ascii) : Z := Z.of_N (N_of_ascii c) - 48.

(** A character that [str.isdigit] accepts: a decimal digit, or one of the
    superscript digits (U+00B2, U+00B3, U+00B9), which are digits but not
    decimal. *)
Definition isdigit_char (c : ascii) : bool :=
  let n := N_of_ascii c in
  is_digit c || (n =? 178)%N || (n =? 179)%N || (n =? 185)%N.

(** [str.isdigit(x)]: every character is a digit and there is at least
    one character. *)
Definition isdigit (x : str) : bool :=
  match x with
  | [] => false
  | _ => forallb isdigit_char x
  end.

(** The value of a run of decimal digits, most significant first. *)
Definition digits_value (s : str) : Z :=
  fold_left (fun acc c => 10 * acc + digit_val c) s 0.

(** Whitespace that [int] strips on both sides: tab to carriage return
    and the space; of the characters above 127, next line and the
    no-break space, which [int] reads as spaces. The separators 28 to 31
    are not stripped. *)
Definition is_space (c : ascii) : bool :=
  let n := N_of_ascii c in
  ((9 <=? n)%N && (n <=? 13)%N) || (n =? 32)%N
  || (n =? 133)%N || (n =? 160)%N.

Fixpoint lstrip (s : str) : str :=
  match s with
  | c :: s' => if is_space c then lstrip s' else s
  | [] => []
  end.

Definition strip (s : str) : str := rev (lstrip (rev (lstrip s))).

(** Digits of a numeric literal: single underscores may separate digits.
    Returns the digits without the underscores, or [None] when the text is
    not a literal. [isd] is the digit class; [prev_digit] tells whether an
    underscore may come next (only after a digit, and not at the end). *)
Fixpoint literal_digits (isd : ascii -> bool) (prev_digit : bool) (s : str)
  : option str :=
  match s with
  | [] => if prev_digit then Some [] else None
  | c :: s' =>
      if isd c then
        match literal_digits isd true s' with
        | Some ds => Some (c :: ds)
        | None => None
        end
      else if ascii_eqb c "_"%char then
        if prev_digit then literal_digits isd false s' else None
      else None
  end.

(** The sign that may start the text of a number. *)
Definition split_sign (body : str) : bool * str :=
  match body with
  | c :: r =>
      if ascii_eqb c "-"%char then (true, r)
      else if ascii_eqb c "+"%char then (false, r)
      else (false, body)
  | [] => (false, body)
  end.

Definition signed (neg : bool) (v : Z) : Z := if neg then - v else v.

(** [int(x)] on a string, base 10: surrounding whitespace, an optional
    sign, digits. *)
Definition py_int (x : str) : result Z :=
  let '(neg, ds) := split_sign (strip x) in
  match literal_digits is_digit false ds with
  | Some d => Ok (signed neg (digits_value d))
  | None => Raise ValueError
  end.

(* ===================================================================== *)
(** ** The hex codec ([codecs.decode/encode(.., "hex_codec")], ["%x"]) *)
(* ===================================================================== *)

Definition byte_of_N (n : N) : byte := byte_of_ascii (ascii_of_N n).
Definition N_of_byte (b : byte) : N := N_of_ascii (ascii_of_byte b).

(** The lower-case hex digit of a value below 16. *)
Definition nibble_char (d : N) : ascii :=
  if (d <? 10)%N then ascii_of_N (48 + d) else ascii_of_N (87 + d).

(** The value of a hex digit, either case. *)
Definition hex_val (c : ascii) : option N :=
  let n := N_of_ascii c in
  if (48 <=? n)%N && (n <=? 57)%N then Some (n - 48)%N
  else if (97 <=? n)%N && (n <=? 102)%N then Some (n - 87)%N
  else if (65 <=? n)%N && (n <=? 70)%N then Some (n - 55)%N
  else None.

Definition is_hex (c : ascii) : bool :=
  match hex_val c with Some _ => true | None => false end.

Definition hex_digits_value (s : str) : Z :=
  fold_left
    (fun acc c =>
       16 * acc + match hex_val c with Some d => Z.of_N d | None => 0 end)
    s 0.

(** [int(x, 0)] on a text in which ["0x"] occurs. Of the literal forms
    that base 0 accepts, only the hexadecimal one can contain ["0x"]: an
    optional sign, the prefix, then hex digits (an underscore may follow the
    prefix). *)
Definition py_int_0x (x : str) : result Z :=
  let '(neg, body) := split_sign (strip x) in
  match body with
  | z :: x_ :: ds =>
      if ascii_eqb z "0"%char && ascii_eqb x_ "x"%char then
        match literal_digits is_hex true ds with
        | Some (d :: d') => Ok (signed neg (hex_digits_value (d :: d')))
        | _ => Raise ValueError
        end
      else Raise ValueError
  | _ => Raise ValueError
  end.

(** [int.from_bytes(b, "big")] *)
Definition int_from_bytes_big (b : bytes) : Z :=
  fold_left (fun acc x => 256 * acc + Z.of_N (N_of_byte x)) b 0.

(** Hex digits of [n], least significant first; [fuel] bounds the number
    of digits. *)
Fixpoint hex_digits_le (fuel : nat) (n : N) : str :=
  match fuel with
  | O => []
  | S f =>
      nibble_char (n mod 16) ::
      (if (n / 16 =? 0)%N then [] else hex_digits_le f (n / 16))
  end.

Definition hex_of_N (n : N) : str :=
  rev (hex_digits_le (S (N.to_nat (N.log2 n))) n).

(** ["%x" % number] *)
Definition format_x (number : Z) : str :=
  if number <? 0 then "-"%char :: hex_of_N (Z.to_N (- number))
  else hex_of_N (Z.to_N number).

(** [codecs.decode(val, "hex_codec")]: two hex digits per byte; an odd
    length or a character that is not a hex digit is an error. *)
Fixpoint a2b_hex (s : str) : result bytes :=
  match s with
  | [] => Ok []
  | [_] => Raise BinasciiError
  | h :: l :: rest =>
      match hex_val h, hex_val l with
      | Some a, Some b =>
          bs <- a2b_hex rest ;;
          Ok (byte_of_N (16 * a + b) :: bs)
      | _, _ => Raise BinasciiError
      end
  end.

(** [codecs.encode(b, "hex_codec")] *)
Fixpoint b2a_hex (b : bytes) : str :=
  match b with
  | [] => []
  | x :: rest =>
      nibble_char (N_of_byte x / 16) :: nibble_char (N_of_byte x mod 16)
        :: b2a_hex rest
  end.

(** [int(h, 16)] on the output of the hex codec (hex digits only). *)
Definition int16 (h : str) : result Z :=
  match h with
  | [] => Raise ValueError
  | _ =>
      fold_left
        (fun acc c =>
           a <- acc ;;
           match hex_val c with
           | Some d => Ok (16 * a + Z.of_N d)
           | None => Raise ValueError
           end)
        h (Ok 0)
  end.

(* ===================================================================== *)
(** ** Wire value codec *)
(* ===================================================================== *)

(** [int(math.ceil(bitwidth / 8.0))]: the ceiling of the eighth, which the
    float division gives exactly for every width that a schema can hold. *)
Definition bitwidthToBytes (bitwidth : Z) : Z := (bitwidth + 7) / 8.

(** [number >= 2**bitwidth]. For a negative [bitwidth] Python computes
    [2**bitwidth] as a float: a value strictly between 0 and 1, or 0.0
    once it underflows (below [2**-1074]). *)
Definition ge_pow2 (number bitwidth : Z) : bool :=
  if 0 <=? bitwidth then 2 ^ bitwidth <=? number
  else if bitwidth <? -1074 then 0 <=? number
  else 1 <=? number.

Definition encodeNum (number bitwidth : Z) : result bytes :=
  let byte_len := bitwidthToBytes bitwidth in
  let num_str := format_x number in
  if ge_pow2 number bitwidth then Raise PyException
  else
    let val :=
      repeat "0"%char (Z.to_nat (byte_len * 2 - len num_str)) ++ num_str in
    a2b_hex val.

Definition decodeNum (encoded_number : bytes) : result Z :=
  int16 (b2a_hex encoded_number).

(** [sep.join(pieces)] *)
Fixpoint str_join (sep : str) (pieces : list str) : str :=
  match pieces with
  | [] => []
  | [p] => p
  | p :: rest => p ++ sep ++ str_join sep rest
  end.

(** The hex codec on one byte: [codecs.encode(s, "hex_codec")] for the
    one-byte pieces that [struct.unpack(str(len(b)) + "c", b)] cuts. *)
Definition byte_hex (s : byte) : str :=
  [nibble_char (N_of_byte s / 16); nibble_char (N_of_byte s mod 16)].

Definition decodeMac (encoded_mac_addr : bytes) : str :=
  str_join (lit ":") (map byte_hex encoded_mac_addr).

Definition decodeToHex (encoded_bytes : bytes) : str :=
  lit "0x" ++ str_join [] (map byte_hex encoded_bytes).

(* ===================================================================== *)
(** ** The MAC and IPv4 patterns *)
(* ===================================================================== *)

(** [$] of a Python pattern matches at the end of the text and also just
    before a newline that ends the text. *)
Definition dollar (body : str -> bool) (s : str) : bool :=
  body s ||
  match rev s with
  | c :: r => ascii_eqb c "010"%char && body (rev r)
  | [] => false
  end.

(** [([\da-fA-F]{2}:){n}([\da-fA-F]{2})] against the whole of [s] *)
Fixpoint mac_groups (n : nat) (s : str) : bool :=
  match n with
  | O =>
      match s with
      | [a; b] => is_hex a && is_hex b
      | _ => false
      end
  | S k =>
      match s with
      | a :: b :: c :: rest =>
          is_hex a && is_hex b && ascii_eqb c ":"%char && mac_groups k rest
      | _ => false
      end
  end.

(** [mac_pattern = re.compile("^([\da-fA-F]{2}:){5}([\da-fA-F]{2})$")] *)
Definition matchesMac (mac_addr_string : str) : bool :=
  dollar (mac_groups 5) mac_addr_string.

(** The leading run of digits of [s] and what follows it. *)
Fixpoint span_digits (s : str) : str * str :=
  match s with
  | c :: s' =>
      if is_digit c then let '(ds, r) := span_digits s' in (c :: ds, r)
      else ([], s)
  | [] => ([], [])
  end.

Definition one_to_three (ds : str) : bool :=
  (1 <=? List.length ds)%nat && (List.length ds <=? 3)%nat.

(** [(\d{1,3}\.){n}(\d{1,3})] against the whole of [s]. A run of digits
    that is followed by a dot is maximal, so the greedy [\d{1,3}] never
    needs to back off. *)
Fixpoint ip_groups (n : nat) (s : str) : bool :=
  let '(ds, r) := span_digits s in
  match n with
  | O => one_to_three ds && match r with [] => true | _ => false end
  | S k =>
      one_to_three ds &&
      match r with
      | c :: r' => ascii_eqb c "."%char && ip_groups k r'
      | [] => false
      end
  end.

(** [ip_pattern = re.compile("^(\d{1,3}\.){3}(\d{1,3})$")] *)
Definition matchesIPv4 (ip_addr_string : str) : bool :=
  dollar (ip_groups 3) ip_addr_string.

(** [mac_addr_string.replace(":", "")] then the hex codec *)
Definition encodeMac (mac_addr_string : str) : result bytes :=
  let str_ :=
    filter (fun c => negb (ascii_eqb c ":"%char)) mac_addr_string in
  a2b_hex str_.

(* ===================================================================== *)
(** ** Dynamically typed values *)
(* ===================================================================== *)

(** The Python objects that reach [encode]: flow values are strings,
    integers, or tuples made by [parse_match_key]. *)
Inductive pyval : Type :=
| VStr (s : str)
| VInt (z : Z)
| VBytes (b : bytes)
| VList (l : list pyval)
| VTuple (l : list pyval)
| VNone.

(** Assignment to a [uint32] field of a message *)
Definition uint32_field (v : Z) : result Z :=
  if (0 <=? v) && (v <? 2 ^ 32) then Ok v else Raise ValueError.

(** Assignment to an [int32] field of a message *)
Definition int32_field (v : Z) : result Z :=
  if (- 2 ^ 31 <=? v) && (v <? 2 ^ 31) then Ok v else Raise ValueError.

(** Assignment of a Python object to an [int32] field *)
Definition int32_field_of (v : pyval) : result pyval :=
  match v with
  | VInt z => z' <- int32_field z ;; Ok (VInt z')
  | _ => Raise TypeError
  end.

(** Assignment of a Python object to a [bytes] field *)
Definition bytes_field (v : pyval) : result pyval :=
  match v with
  | VBytes b => Ok (VBytes b)
  | _ => Raise TypeError
  end.

(** [len(x)] of a value that has a length *)
Definition py_len (x : pyval) : result Z :=
  match x with
  | VStr s => Ok (len s)
  | VBytes b => Ok (len b)
  | VList l | VTuple l => Ok (len l)
  | VInt _ | VNone => Raise TypeError
  end.

(** [x[i]] for a non-negative literal index [i] *)
Definition py_index (x : pyval) (i : nat) : result pyval :=
  match x with
  | VStr s =>
      match nth_error s i with
      | Some c => Ok (VStr [c])
      | None => Raise IndexError
      end
  | VBytes b =>
      match nth_error b i with
      | Some c => Ok (VInt (Z.of_N (N_of_byte c)))
      | None => Raise IndexError
      end
  | VList l | VTuple l =>
      match nth_error l i with
      | Some v => Ok v
      | None => Raise IndexError
      end
  | VInt _ | VNone => Raise TypeError
  end.

Section Platform.

(** Two library calls whose results depend on code outside the utility:
    [socket.inet_aton] (the platform's parser of dotted addresses) and the
    protobuf parser [status_pb2.Status.ParseFromString]. *)
Variable inet_aton : str -> result bytes.
Variable Status_ParseFromString : bytes -> result Status.

Definition encodeIPv4 (ip_addr_string : str) : result bytes :=
  inet_aton ip_addr_string.

(** [encode(x, bitwidth)]: "Tries to infer the type of `x` and encode it" *)
Definition encode (x : pyval) (bitwidth : Z) : result pyval :=
  let byte_len := bitwidthToBytes bitwidth in
  x <- match x with
       | VList [x0] | VTuple [x0] => Ok x0
       | _ => Ok x
       end ;;
  encoded_bytes <-
    match x with
    | VStr s =>
        if matchesMac s then b <- encodeMac s ;; Ok (VBytes b)
        else if matchesIPv4 s then b <- encodeIPv4 s ;; Ok (VBytes b)
        else if isdigit s then
          n <- py_int s ;; b <- encodeNum n bitwidth ;; Ok (VBytes b)
        else
          (* Assume that the string is already encoded *)
          Ok (VStr s)
    | VInt n => b <- encodeNum n bitwidth ;; Ok (VBytes b)
    | _ => Raise PyException
    end ;;
  l <- py_len encoded_bytes ;;
  _ <- py_assert (l =? byte_len) ;;
  Ok encoded_bytes.

(* ===================================================================== *)
(** ** The pipeline schema (P4Info) *)
(* ===================================================================== *)

Record Preamble : Type := {
  pre_id : Z;
  pre_name : str;
  pre_alias : str
}.

(** [p4info_pb2.MatchField.MatchType] *)
Inductive MatchType : Type :=
| UNSPECIFIED | EXACT | LPM | TERNARY | RANGE | OPTIONAL.

Record MatchField : Type := {
  mf_id : Z;
  mf_name : str;
  mf_bitwidth : Z;
  mf_match_type : MatchType
}.

Record Param : Type := {
  param_id : Z;
  param_name : str;
  param_bitwidth : Z
}.

Record Table : Type := {
  table_preamble : Preamble;
  match_fields : list MatchField;
  action_refs : list Z;
  implementation_id : Z
}.

Record Action : Type := {
  action_preamble : Preamble;
  params : list Param
}.

Record ActionProfile : Type := {
  action_profile_preamble : Preamble
}.

Record P4Info : Type := {
  tables : list Table;
  actions : list Action;
  action_profiles : list ActionProfile
}.

(** The top-level collections that the utility reaches through
    [getattr(self.p4info, entity_type)]. *)
Inductive entity_type : Type :=
| Tables | Actions | Action_profiles.

Inductive entity : Type :=
| E_table (t : Table)
| E_action (a : Action)
| E_action_profile (p : ActionProfile).

Definition preamble (o : entity) : Preamble :=
  match o with
  | E_table t => table_preamble t
  | E_action a => action_preamble a
  | E_action_profile p => action_profile_preamble p
  end.

Definition getattr (p4info : P4Info) (kind : entity_type) : list entity :=
  match kind with
  | Tables => map E_table (tables p4info)
  | Actions => map E_action (actions p4info)
  | Action_profiles => map E_action_profile (action_profiles p4info)
  end.

(** Truth value of an optional string: [None] and [""] are false. *)
Definition truthy_str (name : option str) : bool :=
  match name with
  | Some (_ :: _) => true
  | _ => false
  end.

Definition eq_opt_str (a : str) (b : option str) : bool :=
  match b with Some b' => str_eqb a b' | None => false end.

Definition eq_opt_Z (a : Z) (b : option Z) : bool :=
  match b with Some b' => a =? b' | None => false end.

(* ===================================================================== *)
(** ** [P4InfoHelper] *)
(* ===================================================================== *)

(** The [for o in ...] loop of [get]: the first object that matches. *)
Fixpoint get_scan (objs : list entity) (name : option str) (id : option Z)
  : option entity :=
  match objs with
  | [] => None
  | o :: rest =>
      let pre := preamble o in
      if truthy_str name then
        if eq_opt_str (pre_name pre) name || eq_opt_str (pre_alias pre) name
        then Some o else get_scan rest name id
      else
        if eq_opt_Z (pre_id pre) id then Some o else get_scan rest name id
  end.

Definition get (p4info : P4Info) (kind : entity_type)
    (name : option str) (id : option Z) : result entity :=
  match name, id with
  | Some _, Some _ => Raise AssertionError
  | _, _ =>
      match get_scan (getattr p4info kind) name id with
      | Some o => Ok o
      | None => Raise AttributeError
      end
  end.

Definition get_id (p4info : P4Info) (kind : entity_type) (name : str)
  : result Z :=
  o <- get p4info kind (Some name) None ;; Ok (pre_id (preamble o)).

Definition get_name (p4info : P4Info) (kind : entity_type) (id : Z)
  : result str :=
  o <- get p4info kind None (Some id) ;; Ok (pre_name (preamble o)).

Definition get_alias (p4info : P4Info) (kind : entity_type) (id : Z)
  : result str :=
  o <- get p4info kind None (Some id) ;; Ok (pre_alias (preamble o)).

(** The accessors that [__getattr__] synthesizes from the attribute name:
    [get_tables_id], [get_actions_id], [get_action_profiles_id]. *)
Definition get_tables_id (p4info : P4Info) (name : str) : result Z :=
  get_id p4info Tables name.
Definition get_actions_id (p4info : P4Info) (name : str) : result Z :=
  get_id p4info Actions name.
Definition get_action_profiles_id (p4info : P4Info) (name : str)
  : result Z :=
  get_id p4info Action_profiles name.

(** The inner loop of [get_match_field] over one table's fields. *)
Fixpoint scan_match_fields (mfs : list MatchField)
    (name : option str) (id : option Z) : option MatchField :=
  match mfs with
  | [] => None
  | mf :: rest =>
      match name, id with
      | Some n, _ =>
          if str_eqb (mf_name mf) n then Some mf
          else scan_match_fields rest name id
      | None, Some i =>
          if mf_id mf =? i then Some mf else scan_match_fields rest name id
      | None, None => scan_match_fields rest name id
      end
  end.

Fixpoint get_match_field_loop (ts : list Table) (table_name : str)
    (name : option str) (id : option Z) : option MatchField :=
  match ts with
  | [] => None
  | t :: rest =>
      if str_eqb (pre_name (table_preamble t)) table_name then
        match scan_match_fields (match_fields t) name id with
        | Some mf => Some mf
        | None => get_match_field_loop rest table_name name id
        end
      else get_match_field_loop rest table_name name id
  end.

Definition get_match_field (p4info : P4Info) (table_name : str)
    (name : option str) (id : option Z) : result MatchField :=
  match get_match_field_loop (tables p4info) table_name name id with
  | Some mf => Ok mf
  | None => Raise AttributeError
  end.

(** [get_action_params]: falls off the end (returns [None]) when no
    action has that name. *)
Fixpoint get_action_params_loop (acts : list Action) (action_name : str)
  : option (list Param) :=
  match acts with
  | [] => None
  | a :: rest =>
      if str_eqb (pre_name (action_preamble a)) action_name
      then Some (params a)
      else get_action_params_loop rest action_name
  end.

Definition get_action_params (p4info : P4Info) (action_name : str)
  : option (list Param) :=
  get_action_params_loop (actions p4info) action_name.

Fixpoint scan_params (ps : list Param) (name : option str) (id : option Z)
  : option Param :=
  match ps with
  | [] => None
  | p :: rest =>
      match name, id with
      | Some n, _ =>
          if str_eqb (param_name p) n then Some p
          else scan_params rest name id
      | None, Some i =>
          if param_id p =? i then Some p else scan_params rest name id
      | None, None => scan_params rest name id
      end
  end.

Fixpoint get_action_param_loop (acts : list Action) (action_name : str)
    (name : option str) (id : option Z) : option Param :=
  match acts with
  | [] => None
  | a :: rest =>
      if str_eqb (pre_name (action_preamble a)) action_name then
        match scan_params (params a) name id with
        | Some p => Some p
        | None => get_action_param_loop rest action_name name id
        end
      else get_action_param_loop rest action_name name id
  end.

(** The error message of [get_action_param] reads the loop variable [a],
    which is unbound when the schema has no action at all. *)
Definition get_action_param (p4info : P4Info) (action_name : str)
    (name : option str) (id : option Z) : result Param :=
  match get_action_param_loop (actions p4info) action_name name id with
  | Some p => Ok p
  | None =>
      match actions p4info with
      | [] => Raise UnboundLocalError
      | _ => Raise AttributeError
      end
  end.

(* ===================================================================== *)
(** ** Wire entities ([p4runtime_pb2]) *)
(* ===================================================================== *)

(** The [field_match_type] oneof of [FieldMatch]. The fields hold the
    values that the code assigns. *)
Inductive field_match_type : Type :=
| fm_exact (value : pyval)
| fm_lpm (value prefix_len : pyval)
| fm_ternary (value mask : pyval)
| fm_range (low high : pyval).

Record FieldMatch : Type := {
  field_id : Z;
  field_match : field_match_type
}.

Record Action_Param : Type := {
  ap_param_id : Z;
  ap_value : pyval
}.

Record Action_pb : Type := {
  action_id : Z;
  action_params_pb : list Action_Param
}.

(** The oneof of [TableAction]: assigning one member clears the others. *)
Inductive TableAction : Type :=
| ta_unset
| ta_action (a : Action_pb)
| ta_action_profile_member_id (member_id : Z)
| ta_action_profile_group_id (group_id : Z).

Record TableEntry : Type := {
  table_id : Z;
  priority : Z;
  match_ : list FieldMatch;
  is_default_action : bool;
  action : TableAction
}.

Record ActionProfileMember : Type := {
  apm_action_profile_id : Z;
  apm_member_id : Z;
  apm_action : option Action_pb
}.

Record ActionProfileGroup_Member : Type := {
  member_id : Z
}.

Record ActionProfileGroup : Type := {
  apg_action_profile_id : Z;
  apg_group_id : Z;
  apg_members : list ActionProfileGroup_Member;
  apg_max_size : Z
}.

(** Runs [f] on the items of a list in order; the first exception ends
    the comprehension. *)
Fixpoint comprehension {A B} (f : A -> result B) (l : list A)
  : result (list B) :=
  match l with
  | [] => Ok []
  | x :: rest =>
      y <- f x ;; ys <- comprehension f rest ;; Ok (y :: ys)
  end.

(** Truth value of an optional dict. *)
Definition truthy_dict {K V} (d : option (list (K * V))) : bool :=
  match d with
  | Some (_ :: _) => true
  | _ => false
  end.

Definition items {K V} (d : option (list (K * V))) : list (K * V) :=
  match d with Some l => l | None => [] end.

Definition get_match_field_pb (p4info : P4Info) (table_name : str)
    (match_field_name : str) (value : pyval) : result FieldMatch :=
  p4info_match <-
    get_match_field p4info table_name (Some match_field_name) None ;;
  let bitwidth := mf_bitwidth p4info_match in
  fm <-
    match mf_match_type p4info_match with
    | EXACT =>
        e <- encode value bitwidth ;; v <- bytes_field e ;;
        Ok (fm_exact v)
    | LPM =>
        v0 <- py_index value 0 ;; e <- encode v0 bitwidth ;;
        v <- bytes_field e ;;
        v1 <- py_index value 1 ;; pl <- int32_field_of v1 ;;
        Ok (fm_lpm v pl)
    | TERNARY =>
        v0 <- py_index value 0 ;; e <- encode v0 bitwidth ;;
        v <- bytes_field e ;;
        v1 <- py_index value 1 ;; e' <- encode v1 bitwidth ;;
        m <- bytes_field e' ;;
        Ok (fm_ternary v m)
    | RANGE =>
        v0 <- py_index value 0 ;; e <- encode v0 bitwidth ;;
        lo <- bytes_field e ;;
        v1 <- py_index value 1 ;; e' <- encode v1 bitwidth ;;
        hi <- bytes_field e' ;;
        Ok (fm_range lo hi)
    | _ => Raise PyException
    end ;;
  Ok {| field_id := mf_id p4info_match; field_match := fm |}.

Definition get_action_param_pb (p4info : P4Info) (action_name : str)
    (param_name_ : str) (value : pyval) : result Action_Param :=
  p4info_param <-
    get_action_param p4info action_name (Some param_name_) None ;;
  e <- encode value (param_bitwidth p4info_param) ;;
  v <- bytes_field e ;;
  Ok {| ap_param_id := param_id p4info_param; ap_value := v |}.

(** The [if action_name:] block shared by the entry and member builders *)
Definition build_action (p4info : P4Info) (action_name : str)
    (action_params : option (list (str * pyval))) : result Action_pb :=
  aid <- get_actions_id p4info action_name ;;
  ps <-
    (if truthy_dict action_params then
       comprehension
         (fun '(field_name, value) =>
            get_action_param_pb p4info action_name field_name value)
         (items action_params)
     else Ok []) ;;
  Ok {| action_id := aid; action_params_pb := ps |}.

Definition buildTableEntry (p4info : P4Info) (table_name : str)
    (match_fields_ : option (list (str * pyval)))
    (default_action : bool)
    (action_name : option str)
    (action_params : option (list (str * pyval)))
    (priority_ : option Z)
    (group_id member_id_ : Z) : result TableEntry :=
  tid <- get_tables_id p4info table_name ;;
  prio <-
    match priority_ with
    | Some p => int32_field p
    | None => Ok 0
    end ;;
  m <-
    (if truthy_dict match_fields_ then
       comprehension
         (fun '(match_field_name, value) =>
            get_match_field_pb p4info table_name match_field_name value)
         (items match_fields_)
     else Ok []) ;;
  let is_default := default_action in
  act <-
    (if truthy_str action_name then
       a <- build_action p4info
              (match action_name with Some n => n | None => [] end)
              action_params ;;
       Ok (ta_action a)
     else Ok ta_unset) ;;
  act <-
    (if negb (member_id_ =? 0) then
       m' <- uint32_field member_id_ ;; Ok (ta_action_profile_member_id m')
     else Ok act) ;;
  act <-
    (if negb (group_id =? 0) then
       g <- uint32_field group_id ;; Ok (ta_action_profile_group_id g)
     else Ok act) ;;
  Ok {| table_id := tid; priority := prio; match_ := m;
        is_default_action := is_default; action := act |}.

Definition buildActionProfileMember (p4info : P4Info) (table_name : str)
    (member_id_ : Z) (action_name : option str)
    (action_params : option (list (str * pyval)))
  : result ActionProfileMember :=
  pid <- get_action_profiles_id p4info table_name ;;
  mid <- uint32_field member_id_ ;;
  act <-
    (if truthy_str action_name then
       a <- build_action p4info
              (match action_name with Some n => n | None => [] end)
              action_params ;;
       Ok (Some a)
     else Ok None) ;;
  Ok {| apm_action_profile_id := pid; apm_member_id := mid;
        apm_action := act |}.

(** The [for i in members] loop of [buildActionProfileGroup]: [acc] is the
    repeated field [members] so far. *)
Fixpoint add_members (members : list str)
    (acc : list ActionProfileGroup_Member)
  : result (list ActionProfileGroup_Member) :=
  match members with
  | [] => Ok acc
  | i :: rest =>
      if isdigit i then
        n <- py_int i ;; m <- uint32_field n ;;
        add_members rest (acc ++ [ {| member_id := m |} ])
      else add_members rest acc
  end.

Definition buildActionProfileGroup (p4info : P4Info) (table_name : str)
    (group_id max_size : Z) (members : list str)
  : result ActionProfileGroup :=
  pid <- get_action_profiles_id p4info table_name ;;
  gid <- uint32_field group_id ;;
  ms <- add_members members [] ;;
  sz <- int32_field max_size ;;
  Ok {| apg_action_profile_id := pid; apg_group_id := gid;
        apg_members := ms; apg_max_size := sz |}.

(* ===================================================================== *)
(** ** Error decoder *)
(* ===================================================================== *)

(** [one_error_any.Unpack(p4_error)]: false when the [Any] holds another
    message type. *)
Definition Unpack (one_error_any : Any) : option P4Error :=
  match one_error_any with
  | Any_p4_Error e => Some e
  | Any_other _ => None
  end.

Record P4RuntimeErrorIterator : Type := {
  it_grpc_error : RpcError;
  errors : list Any;
  idx : nat
}.

(** The [for meta in trailing_metadata()] loop of [__init__]: the first
    entry under the key is parsed, then [break]. *)
Fixpoint scan_metadata (metas : list (str * bytes)) : result (option Status) :=
  match metas with
  | [] => Ok None
  | meta :: rest =>
      if str_eqb (fst meta) (lit "grpc-status-details-bin") then
        error <- Status_ParseFromString (snd meta) ;; Ok (Some error)
      else scan_metadata rest
  end.

(** [P4RuntimeErrorIterator.__init__] *)
Definition P4RuntimeErrorIterator_init (grpc_error : RpcError)
  : result P4RuntimeErrorIterator :=
  _ <- py_assert (rpc_code grpc_error =? StatusCode_UNKNOWN) ;;
  error <- scan_metadata (trailing_metadata grpc_error) ;;
  match error with
  | None => Raise (P4RuntimeErrorFormatException "No binary details field")
  | Some error =>
      if len (details error) =? 0 then
        Raise (P4RuntimeErrorFormatException
                 "Binary details field has empty Any details repeated field")
      else
        Ok {| it_grpc_error := grpc_error; errors := details error;
              idx := 0 |}
  end.

Definition advance (self : P4RuntimeErrorIterator) : P4RuntimeErrorIterator :=
  {| it_grpc_error := it_grpc_error self; errors := errors self;
     idx := S (idx self) |}.

(** [P4RuntimeErrorIterator.__next__]. Each unit of [fuel] pays for one
    test of the [while] condition; [None] means that the loop is still
    running when the fuel is spent. The result carries the iterator's
    state after the call. *)
Fixpoint next (fuel : nat) (self : P4RuntimeErrorIterator)
  : option (result (nat * P4Error) * P4RuntimeErrorIterator) :=
  match fuel with
  | O => None
  | S fuel' =>
      match nth_error (errors self) (idx self) with
      | Some one_error_any =>               (* self.idx < len(self.errors) *)
          match Unpack one_error_any with
          | None =>
              Some (Raise (P4RuntimeErrorFormatException
                             "Cannot convert Any message to p4.Error"),
                    self)
          | Some p4_error =>
              if canonical_code p4_error =? code_pb2_OK then
                next fuel' self                                (* continue *)
              else
                Some (Ok (idx self, p4_error), advance self)
          end
      | None => Some (Raise StopIteration, self)
      end
  end.

(** [for error_tuple in error_iterator: self.errors.append(error_tuple)].
    [fuel] bounds the iterations of the [for] loop and of each [__next__]. *)
Fixpoint collect_errors (fuel : nat) (error_iterator : P4RuntimeErrorIterator)
    (acc : list (nat * P4Error)) : option (result (list (nat * P4Error))) :=
  match fuel with
  | O => None
  | S fuel' =>
      match next fuel error_iterator with
      | None => None
      | Some (Raise StopIteration, _) => Some (Ok acc)
      | Some (Raise e, _) => Some (Raise e)
      | Some (Ok error_tuple, it') =>
          collect_errors fuel' it' (acc ++ [error_tuple])
      end
  end.

(** [P4RuntimeWriteException.__init__]: the list of errors of the new
    exception object, or the exception that escapes the constructor. *)
Definition P4RuntimeWriteException_init (fuel : nat) (grpc_error : RpcError)
  : option (result (list (nat * P4Error))) :=
  match py_assert (rpc_code grpc_error =? StatusCode_UNKNOWN) with
  | Raise e => Some (Raise e)
  | Ok _ =>
      match P4RuntimeErrorIterator_init grpc_error with
      | Raise e => Some (Raise e)       (* just propagate exception for now *)
      | Ok error_iterator => collect_errors fuel error_iterator []
      end
  end.

(** The decorator [parse_p4runtime_write_error], applied to the outcome
    [r] of the wrapped call. *)
Definition parse_p4runtime_write_error {A} (fuel : nat) (r : result A)
  : option (result A) :=
  match r with
  | Raise (grpc_RpcError e) =>
      if negb (rpc_code e =? StatusCode_UNKNOWN) then Some (Raise (grpc_RpcError e))
      else
        match P4RuntimeWriteException_init fuel e with
        | None => None
        | Some (Ok errs) => Some (Raise (P4RuntimeWriteException errs))
        | Some (Raise e') => Some (Raise e')
        end
  | _ => Some r
  end.

(** The decorator [parse_p4runtime_error] *)
Definition parse_p4runtime_error {A} (r : result A) : result A :=
  match r with
  | Raise (grpc_RpcError e) => Raise (P4RuntimeException e)
  | _ => r
  end.

(* ===================================================================== *)
(** ** Text of the command line: [split], [find], the flow parsers *)
(* ===================================================================== *)

Fixpoint prefixb (p s : str) : bool :=
  match p, s with
  | [], _ => true
  | a :: p', b :: s' => ascii_eqb a b && prefixb p' s'
  | _ :: _, [] => false
  end.

(** [s.split(sep)] for a non-empty [sep]: the pieces between the
    occurrences of [sep], found from left to right without overlap.
    [skip] counts the characters of a found separator that are still to
    be passed over; [cur] is the current piece, reversed. *)
Fixpoint split_go (sep : str) (skip : nat) (s : str) (cur : str)
  : list str :=
  match s with
  | [] => [rev cur]
  | c :: s' =>
      match skip with
      | S k => split_go sep k s' cur
      | O =>
          if prefixb sep s
          then rev cur :: split_go sep (List.length sep - 1) s' []
          else split_go sep 0 s' (c :: cur)
      end
  end.

Definition split (s sep : str) : list str := split_go sep 0 s [].

(** [s.find(sub) != -1] *)
Fixpoint contains (s sub : str) : bool :=
  prefixb sub s ||
  match s with
  | [] => false
  | _ :: s' => contains s' sub
  end.

(** [l[i]] on a list *)
Definition item {A} (l : list A) (i : nat) : result A :=
  match nth_error l i with
  | Some x => Ok x
  | None => Raise IndexError
  end.

(** [struct.unpack("!L", socket.inet_aton(ip_addr_string))[0]] *)
Definition encodeIPv4_base10 (ip_addr_string : str) : result Z :=
  packedIP <- inet_aton ip_addr_string ;;
  if (List.length packedIP =? 4)%nat then Ok (int_from_bytes_big packedIP)
  else Raise struct_error.

(** One element of the comprehension of [parse_action] *)
Definition parse_action_value (a : str) : result pyval :=
  if matchesIPv4 a then n <- encodeIPv4_base10 a ;; Ok (VInt n)
  else if matchesMac a then
    b <- encodeMac a ;; Ok (VInt (int_from_bytes_big b))
  else if contains a (lit "0x") then n <- py_int_0x a ;; Ok (VInt n)
  else n <- py_int a ;; Ok (VInt n).

Definition parse_action (action_ : str) : result (str * list pyval) :=
  let act_fields := split action_ (lit "(") in
  action_name <- item act_fields 0 ;;
  if (1 <? List.length act_fields)%nat then
    f1 <- item act_fields 1 ;;
    params_ <- item (split f1 (lit ")")) 0 ;;
    let act_data := split params_ (lit ",") in
    act_data <- comprehension parse_action_value act_data ;;
    Ok (action_name, act_data)
  else
    Ok (action_name, [VStr []]).

Definition parse_profile_mem (flow : str) : result (str * list pyval * str) :=
  let extract_mem := split flow (lit ",member_id=") in
  action_param <- item extract_mem 0 ;;
  mem_id <- item extract_mem 1 ;;
  let act := split action_param (lit "action=") in
  a1 <- item act 1 ;;
  '(action_name, act_data) <- parse_action a1 ;;
  Ok (action_name, act_data, mem_id).

Definition parse_profile_group (flow : str) : result (str * str * str) :=
  let extract_group := split flow (lit ",reference_members=") in
  e0 <- item extract_group 0 ;;
  let group_id := split e0 (lit "group_id=") in
  e1 <- item extract_group 1 ;;
  let mem := split e1 (lit ",max_size=") in
  ref_members <- item mem 0 ;;
  max_size <- item mem 1 ;;
  g1 <- item group_id 1 ;;
  Ok (g1, ref_members, max_size).

(** [int(v)] on a value of [act_data] *)
Definition py_int_val (v : pyval) : result Z :=
  match v with
  | VInt n => Ok n
  | VStr s => py_int s
  | _ => Raise TypeError
  end.

(** [d[k] = v] on a dict kept in insertion order *)
Fixpoint dict_set {V} (d : list (str * V)) (k : str) (v : V)
  : list (str * V) :=
  match d with
  | [] => [(k, v)]
  | (k', v') :: rest =>
      if str_eqb k' k then (k, v) :: rest else (k', v') :: dict_set rest k v
  end.

(** The [for mk_field in mk_fields] loop of [parse_match_key];
    [match_keys] is the dict so far. *)
Fixpoint parse_match_key_loop (mk_fields : list str)
    (match_keys : list (str * pyval)) : result (list (str * pyval)) :=
  match mk_fields with
  | [] => Ok match_keys
  | mk_field_ :: rest =>
      let m := split mk_field_ (lit "=") in
      m1 <- item m 1 ;;
      if contains m1 (lit "/") then
        let lpm_mk := split m1 (lit "/") in
        l0 <- item lpm_mk 0 ;;
        l1 <- item lpm_mk 1 ;;
        n <- py_int l1 ;;
        m0 <- item m 0 ;;
        parse_match_key_loop rest
          (dict_set match_keys m0 (VTuple [VStr l0; VInt n]))
      else
        m0 <- item m 0 ;;
        parse_match_key_loop rest (dict_set match_keys m0 (VStr m1))
  end.

Definition parse_match_key (key : str) : result (list (str * pyval)) :=
  parse_match_key_loop (split key (lit ",")) [].

(** [{a.name: int(action_data[idx]) for idx, a in enumerate(ps)}] *)
Fixpoint action_params_dict (ps : list Param) (idx : nat)
    (action_data : list pyval) (d : list (str * pyval))
  : result (list (str * pyval)) :=
  match ps with
  | [] => Ok d
  | a :: rest =>
      v <- item action_data idx ;;
      n <- py_int_val v ;;
      action_params_dict rest (S idx) action_data
        (dict_set d (param_name a) (VInt n))
  end.

(** The dict comprehension over [helper.get_action_params(action)];
    enumerating [None] is a [TypeError]. *)
Definition action_params_of (p4info : P4Info) (action_ : str)
    (action_data : list pyval) : result (list (str * pyval)) :=
  match get_action_params p4info action_ with
  | None => Raise TypeError
  | Some ps => action_params_dict ps 0 action_data []
  end.

(** Iterating a [str] yields its characters as one-character strings. *)
Definition chars (s : str) : list str := map (fun c => [c]) s.

(* ===================================================================== *)
(** ** Streaming session *)
(* ===================================================================== *)

Record Uint128 : Type := { high : Z; low : Z }.

Record MasterArbitrationUpdate : Type := {
  arb_device_id : Z;
  arb_election_id : Uint128
}.

(** [StreamMessageRequest]: the utility only sends arbitration. *)
Inductive StreamMessageRequest : Type :=
| req_arbitration (a : MasterArbitrationUpdate).

(** [StreamMessageResponse], by the member of its oneof; an arbitration
    reply carries [arbitration.status.code]. *)
Inductive StreamMessageResponse : Type :=
| rep_arbitration (status_code_ : Z)
| rep_packet
| rep_digest
| rep_idle_timeout_notification
| rep_other
| rep_error.

(** The fields of [StreamMessageResponse] (the members of its oneof). *)
Definition StreamMessageResponse_fields : list string :=
  ["arbitration"; "packet"; "digest"; "idle_timeout_notification";
   "other"; "error"]%string.

(** The member of the oneof that a message has set. *)
Definition update_field (msg : StreamMessageResponse) : string :=
  match msg with
  | rep_arbitration _ => "arbitration"
  | rep_packet => "packet"
  | rep_digest => "digest"
  | rep_idle_timeout_notification => "idle_timeout_notification"
  | rep_other => "other"
  | rep_error => "error"
  end.

(** [msg.HasField(type_)]: whether the field is set; [ValueError] for a
    name that is not a field of the message. *)
Definition HasField (msg : StreamMessageResponse) (type_ : str) : result bool :=
  if existsb (fun f => str_eqb type_ (lit f)) StreamMessageResponse_fields
  then Ok (str_eqb type_ (lit (update_field msg)))
  else Raise ValueError.

(** [rep.arbitration.status.code]; an unset field reads as its default. *)
Definition arbitration_status_code (rep : StreamMessageResponse) : Z :=
  match rep with
  | rep_arbitration c => c
  | _ => 0
  end.

Inductive Update_Type : Type := INSERT | MODIFY | DELETE.

Inductive Entity : Type :=
| entity_table_entry (te : TableEntry)
| entity_action_profile_member (apm : ActionProfileMember)
| entity_action_profile_group (apg : ActionProfileGroup).

Record Update : Type := {
  update_type : Update_Type;
  update_entity : Entity
}.

Record WriteRequest : Type := {
  wr_device_id : Z;
  wr_election_id : Uint128;
  updates : list Update
}.

(** The calls made on the stub. *)
Inductive rpc : Type :=
| rpc_StreamChannel
| rpc_GetForwardingPipelineConfig (device_id_ : Z)
| rpc_Write (req : WriteRequest).

Inductive level : Type := DEBUG | ERROR | CRITICAL.

(** What the program can observe and change outside its own variables.
    [stream_in_q] lists what the receiver thread will have put into the
    inbound queue, each item with its time of arrival ([None] is the
    sentinel that the receiver puts when the stream fails, the last thing
    it does); [clock] is the reading of [time.time()], which advances
    while the program waits; [receiver_running] holds from the start of
    the receiver thread until the thread is known to have ended. The
    device keeps the stream open until it fails it or the client closes
    its side: a queue without a sentinel is that of a stream that stays
    open. *)
Record world : Type := {
  stdout : list string;
  logging : list (level * string);
  stream_out_q : list (option StreamMessageRequest);
  stream_in_q : list (Q * option StreamMessageResponse);
  wire : list rpc;
  clock : Q;
  receiver_running : bool
}.

Definition print (line : string) (w : world) : world :=
  {| stdout := stdout w ++ [line]; logging := logging w;
     stream_out_q := stream_out_q w; stream_in_q := stream_in_q w;
     wire := wire w; clock := clock w;
     receiver_running := receiver_running w |}.

Definition log (l : level) (line : string) (w : world) : world :=
  {| stdout := stdout w; logging := logging w ++ [(l, line)];
     stream_out_q := stream_out_q w; stream_in_q := stream_in_q w;
     wire := wire w; clock := clock w;
     receiver_running := receiver_running w |}.

Definition stream_out_put (p : option StreamMessageRequest) (w : world)
  : world :=
  {| stdout := stdout w; logging := logging w;
     stream_out_q := stream_out_q w ++ [p]; stream_in_q := stream_in_q w;
     wire := wire w; clock := clock w;
     receiver_running := receiver_running w |}.

Definition call (r : rpc) (w : world) : world :=
  {| stdout := stdout w; logging := logging w;
     stream_out_q := stream_out_q w; stream_in_q := stream_in_q w;
     wire := wire w ++ [r]; clock := clock w;
     receiver_running := receiver_running w |}.

Definition waited (pending : list (Q * option StreamMessageResponse))
    (now : Q) (w : world) : world :=
  {| stdout := stdout w; logging := logging w;
     stream_out_q := stream_out_q w; stream_in_q := pending;
     wire := wire w; clock := now;
     receiver_running := receiver_running w |}.

(** The receiver thread starts ([Thread.start]) or is known to have
    ended. *)
Definition receiver (running : bool) (w : world) : world :=
  {| stdout := stdout w; logging := logging w;
     stream_out_q := stream_out_q w; stream_in_q := stream_in_q w;
     wire := wire w; clock := clock w;
     receiver_running := running |}.

Definition Qlt_bool (a b : Q) : bool := negb (Qle_bool b a).

Definition Qmax (a b : Q) : Q := if Qle_bool a b then b else a.

(** How the body of [get_stream_packet] ends. *)
Inductive wait_end : Type :=
| wait_msg (msg : StreamMessageResponse)   (* [return msg] *)
| wait_sentinel                            (* [msg is None]: [return None] *)
| wait_timeout                             (* [break], or [queue.Empty] *)
| wait_raise (e : exn).                    (* raised by [HasField] *)

(** The value that [get_stream_packet] returns, or the exception that
    leaves it. *)
Definition wait_value (o : wait_end)
  : result (option StreamMessageResponse) :=
  match o with
  | wait_msg m => Ok (Some m)
  | wait_sentinel | wait_timeout => Ok None
  | wait_raise e => Raise e
  end.

(** The [while True] loop of [get_stream_packet]. [pending] is the inbound
    queue, [now] the clock. [stream_in_q.get(timeout=remaining)] hands over
    the head of the queue if it arrives before the wait ends, and raises
    [queue.Empty] otherwise. Returns how the loop ends, the queue and the
    clock. *)
Fixpoint get_stream_packet_loop (type_ : str) (timeout start : Q)
    (pending : list (Q * option StreamMessageResponse)) (now : Q)
  : wait_end * list (Q * option StreamMessageResponse) * Q :=
  let remaining := (timeout - (now - start))%Q in
  if Qlt_bool remaining 0 then (wait_timeout, pending, now)
  else
    match pending with
    | [] => (wait_timeout, [], (now + remaining)%Q)  (* queue.Empty *)
    | (arrival, msg) :: rest =>
        if Qle_bool arrival (now + remaining)%Q then
          let now' := Qmax now arrival in
          match msg with
          | None => (wait_sentinel, rest, now')
          | Some m =>
              match HasField m type_ with
              | Raise e => (wait_raise e, rest, now')
              | Ok has =>
                  if negb has
                  then get_stream_packet_loop type_ timeout start rest now'
                  else (wait_msg m, rest, now')
              end
          end
        else (wait_timeout, pending, (now + remaining)%Q) (* queue.Empty *)
    end.

(** [get_stream_packet]. The sentinel is the last thing that the
    receiver thread puts: once it is read, the thread has ended. *)
Definition get_stream_packet (type_ : str) (timeout : Q) (w : world)
  : result (option StreamMessageResponse) * world :=
  let start := clock w in
  let '(o, pending, now) :=
    get_stream_packet_loop type_ timeout start (stream_in_q w) start in
  let w := waited pending now w in
  (wait_value o,
   match o with
   | wait_sentinel => receiver false w
   | _ => w
   end).

Record P4RuntimeClient : Type := {
  device_id : Z;
  election_id : Z * Z
}.

(** [P4RuntimeClient.handshake] *)
Definition handshake (self : P4RuntimeClient) (w : world)
  : result unit * world :=
  let req :=
    req_arbitration
      {| arb_device_id := device_id self;
         arb_election_id := {| high := fst (election_id self);
                               low := snd (election_id self) |} |} in
  let w := stream_out_put (Some req) w in
  let '(rep, w) := get_stream_packet (lit "arbitration") 2 w in
  match rep with
  | Raise e => (Raise e, w)
  | Ok None =>
      let w := log CRITICAL "Failed to establish session with server" w in
      (Raise (SystemExit 1), w)
  | Ok (Some rep) =>
      let is_master := arbitration_status_code rep =? code_pb2_OK in
      let w :=
        log DEBUG
          (if is_master then "Session established, client is 'master'"
           else "Session established, client is 'slave'") w in
      if negb is_master then
        (Ok tt,
         print "You are not master, you only have read access to the server" w)
      else (Ok tt, w)
  end.

(** [P4RuntimeClient.__init__] with [set_up_stream]: opens the stream,
    starts the receiver thread and runs the handshake. *)
Definition P4RuntimeClient_init (device_id_ : Z) (w : world)
  : result P4RuntimeClient * world :=
  let self := {| device_id := device_id_; election_id := (1, 0) |} in
  let w := call rpc_StreamChannel w in
  let w := receiver true w in
  let '(r, w) := handshake self w in
  match r with
  | Ok _ => (Ok self, w)
  | Raise e => (Raise e, w)
  end.

(** [tear_down]: the close sentinel for the outbound stream, which
    closes the client's side of the stream, and the [join] of the
    receiver thread, which returns when the device has ended the stream
    in answer. *)
Definition tear_down (self : P4RuntimeClient) (w : world) : world :=
  let w := stream_out_put None w in
  receiver false w.

(** The end of a run of the interpreter. *)
Inductive process : Type :=
| exits (status : Z) (time : Q)
| never_exits.

(** The exit status for the way the main thread ends: [sys.exit(n)] gives
    [n]; any other exception is caught in [main], which exits with 1. *)
Definition exit_status {A} (r : result A) : Z :=
  match r with
  | Ok _ => 0
  | Raise (SystemExit n) => n
  | Raise _ => 1
  end.

(** The time at which the stream fails, if it does: the arrival of the
    first sentinel in the inbound queue. *)
Fixpoint stream_failure (pending : list (Q * option StreamMessageResponse))
  : option Q :=
  match pending with
  | [] => None
  | (arrival, None) :: _ => Some arrival
  | (_, Some _) :: rest => stream_failure rest
  end.

(** What becomes of the process when its main thread has ended with [r].
    The receiver thread is not a daemon: the interpreter joins it before
    it exits, and the thread runs for as long as the stream is open. *)
Definition interpreter_exit {A} (r : result A) (w : world) : process :=
  if receiver_running w then
    match stream_failure (stream_in_q w) with
    | Some t => exits (exit_status r) (Qmax (clock w) t)
    | None => never_exits
    end
  else exits (exit_status r) (clock w).

(* ===================================================================== *)
(** ** RPCs and the action-profile commands *)
(* ===================================================================== *)

(** The device's answers to the unary calls: a value, or a raised
    [grpc.RpcError]. *)
Variable stub_GetForwardingPipelineConfig : Z -> result P4Info.
Variable stub_Write : WriteRequest -> result unit.

(** A computation on the [world]; [None] means that it is still running
    when the fuel of the error decoder is spent. *)
Definition M (A : Type) : Type := world -> option (result A) * world.

Definition ret {A} (a : A) : M A := fun w => (Some (Ok a), w).

Definition lift {A} (r : result A) : M A := fun w => (Some r, w).

Definition bindM {A B} (m : M A) (k : A -> M B) : M B :=
  fun w =>
    match m w with
    | (Some (Ok a), w') => k a w'
    | (Some (Raise e), w') => (Some (Raise e), w')
    | (None, w') => (None, w')
    end.

Notation "x <~ c1 ;; c2" := (bindM c1 (fun x => c2))
  (at level 61, c1 at next level, right associativity) : py_scope.
Notation "' pat <~ c1 ;; c2" :=
  (bindM c1 (fun x => match x with pat => c2 end))
  (at level 61, pat pattern, c1 at next level, right associativity)
  : py_scope.

Definition printM (line : string) : M unit :=
  fun w => (Some (Ok tt), print line w).

(** A protobuf message object has neither [__bool__] nor [__len__]: it is
    true, whatever it holds. *)
Definition message_truthy (p4info : P4Info) : bool := true.

(** [get_p4info], under [@parse_p4runtime_error] *)
Definition get_p4info (self : P4RuntimeClient) : M P4Info :=
  fun w =>
    let w := call (rpc_GetForwardingPipelineConfig (device_id self)) w in
    (Some (parse_p4runtime_error
             (stub_GetForwardingPipelineConfig (device_id self))), w).

(** [write_update], under [@parse_p4runtime_write_error] *)
Definition write_update (fuel : nat) (self : P4RuntimeClient)
    (update : Update) : M unit :=
  fun w =>
    let req :=
      {| wr_device_id := device_id self;
         wr_election_id := {| high := fst (election_id self);
                              low := snd (election_id self) |};
         updates := [update] |} in
    let w := call (rpc_Write req) w in
    (parse_p4runtime_write_error fuel (stub_Write req), w).

(** The schema for a command: [get_p4info] and the check that follows. *)
Definition fetch_p4info (self : P4RuntimeClient) : M P4Info :=
  p4info <~ get_p4info self ;;
  if negb (message_truthy p4info) then lift (Raise PyException)
  else ret p4info.

(** [p4ctl_add_group], the function under [@with_client] *)
Definition p4ctl_add_group (fuel : nat) (client : P4RuntimeClient)
    (bridge tbl_name flow : str) : M unit :=
  '(group_id, members, max_size) <~ lift (parse_profile_group flow) ;;
  g <~ lift (py_int group_id) ;;
  if g =? 0 then printM "Group ID 0 is un-supported."
  else
    p4info <~ fetch_p4info client ;;
    g <~ lift (py_int group_id) ;;
    m <~ lift (py_int max_size) ;;
    apg <~ lift (buildActionProfileGroup p4info tbl_name g m (chars members)) ;;
    write_update fuel client
      {| update_type := INSERT;
         update_entity := entity_action_profile_group apg |}.

(** [p4ctl_del_group] *)
Definition p4ctl_del_group (fuel : nat) (client : P4RuntimeClient)
    (bridge tbl_name flow : str) : M unit :=
  group_id <~ lift (item (split flow (lit "group_id=")) 1) ;;
  g <~ lift (py_int group_id) ;;
  if g =? 0 then printM "Group ID 0 is un-supported."
  else
    p4info <~ fetch_p4info client ;;
    g <~ lift (py_int group_id) ;;
    apg <~ lift (buildActionProfileGroup p4info tbl_name g 0 []) ;;
    write_update fuel client
      {| update_type := DELETE;
         update_entity := entity_action_profile_group apg |}.

(** [p4ctl_add_member] *)
Definition p4ctl_add_member (fuel : nat) (client : P4RuntimeClient)
    (bridge tbl_name flow : str) : M unit :=
  '(action_, action_data, mem_id) <~ lift (parse_profile_mem flow) ;;
  m <~ lift (py_int mem_id) ;;
  if m =? 0 then printM "Member ID 0 is un-supported."
  else
    p4info <~ fetch_p4info client ;;
    m <~ lift (py_int mem_id) ;;
    action_params <~ lift (action_params_of p4info action_ action_data) ;;
    apm <~ lift (buildActionProfileMember p4info tbl_name m (Some action_)
                   (Some action_params)) ;;
    write_update fuel client
      {| update_type := INSERT;
         update_entity := entity_action_profile_member apm |}.

(** [p4ctl_del_member] *)
Definition p4ctl_del_member (fuel : nat) (client : P4RuntimeClient)
    (bridge tbl_name flow : str) : M unit :=
  member_id_ <~ lift (item (split flow (lit "member_id=")) 1) ;;
  m <~ lift (py_int member_id_) ;;
  if m =? 0 then printM "Member ID 0 is un-supported."
  else
    p4info <~ fetch_p4info client ;;
    m <~ lift (py_int member_id_) ;;
    apm <~ lift (buildActionProfileMember p4info tbl_name m None None) ;;
    write_update fuel client
      {| update_type := DELETE;
         update_entity := entity_action_profile_member apm |}.

(** [print(a, b, ...)]: the arguments, separated by single spaces. *)
Definition print_args (args : list str) : M unit :=
  printM (string_of_list_ascii (str_join (lit " ") args)).

(** [p4ctl_mod_group]: after the two messages the function returns; the
    statements that follow the [return] are never run. *)
Definition p4ctl_mod_group (client : P4RuntimeClient)
    (bridge tbl_name flow : str) : M unit :=
  '(group_id, members, max_size) <~ lift (parse_profile_group flow) ;;
  g <~ lift (py_int group_id) ;;
  if g =? 0 then printM "Group ID 0 is un-supported."
  else
    _ <~ printM
      "Currently modify group functionality is un-supported by backend target.!!!" ;;
    print_args
      [lit "Instead delete group:"; group_id;
       lit "and re-add same group with members:"; members;
       lit " size:"; max_size].

(** The decorator [with_client]: a client is set up (stream and
    handshake), the command runs, and [tear_down] runs in the [finally]
    clause if the client exists. *)
Definition with_client (f : P4RuntimeClient -> M unit) : M unit :=
  fun w =>
    match P4RuntimeClient_init 1 w with
    | (Raise e, w) => (Some (Raise e), w)
    | (Ok client, w) =>
        match f client w with
        | (None, w) => (None, w)
        | (Some r, w) => (Some r, tear_down client w)
        end
    end.

End Platform.

(* ===================================================================== *)
(** ** Vocabulary of the statements, and inputs for the examples *)
(* ===================================================================== *)

(** The strings that ["%x"] and the hex codec write. *)
Definition lower_hex (s : str) : Prop :=
  Forall (fun c => exists d, (d < 16)%N /\ c = nibble_char d) s.

(** [n >= 2**bitwidth] as a statement about numbers: for a negative
    [bitwidth] the power lies strictly between 0 and 1. *)
Definition at_least_pow2 (n bitwidth : Z) : Prop :=
  if 0 <=? bitwidth then 2 ^ bitwidth <= n else 1 <= n.

(** A schema is well formed when its names are not empty, an id belongs
    to one entity of a kind, and a name or alias that is not empty belongs
    to one entity of a kind. *)
Definition labels (o : entity) : list str :=
  [pre_name (preamble o); pre_alias (preamble o)].

Definition well_formed (objs : list entity) : Prop :=
  (forall o, In o objs -> pre_name (preamble o) <> []) /\
  (forall o1 o2, In o1 objs -> In o2 objs ->
     pre_id (preamble o1) = pre_id (preamble o2) -> o1 = o2) /\
  (forall o1 o2 l, In o1 objs -> In o2 objs -> l <> [] ->
     In l (labels o1) -> In l (labels o2) -> o1 = o2).

(** The records that the decoder is expected to yield: those whose
    canonical code is not OK, each with its index in the batch. *)
Fixpoint expected_errors (i : nat) (l : list Any) : list (nat * P4Error) :=
  match l with
  | [] => []
  | Any_p4_Error e :: rest =>
      if canonical_code e =? code_pb2_OK then expected_errors (S i) rest
      else (i, e) :: expected_errors (S i) rest
  | Any_other _ :: rest => expected_errors (S i) rest
  end.

(** An [inet_aton] for the examples: four decimal octets. *)
Definition inet_aton_dotted (s : str) : result bytes :=
  let parts := split s (lit ".") in
  if (List.length parts =? 4)%nat then
    comprehension
      (fun p =>
         if isdigit p then
           n <- py_int p ;;
           if n <=? 255 then Ok (byte_of_N (Z.to_N n)) else Raise OSError
         else Raise OSError)
      parts
  else Raise OSError.

(** A status parser for the examples: every payload reads as [st]. *)
Definition parse_as (st : Status) (payload : bytes) : result Status := Ok st.

(** A schema with one table, which has one exact field of eight bits, one
    action with one parameter, and one action profile. *)
Definition demo_p4info : P4Info :=
  {| tables :=
       [ {| table_preamble :=
              {| pre_id := 1; pre_name := lit "pipe.t"; pre_alias := lit "t" |};
            match_fields :=
              [ {| mf_id := 1; mf_name := lit "f"; mf_bitwidth := 8;
                   mf_match_type := EXACT |} ];
            action_refs := [7];
            implementation_id := 0 |} ];
     actions :=
       [ {| action_preamble :=
              {| pre_id := 7; pre_name := lit "pipe.a"; pre_alias := lit "a" |};
            params :=
              [ {| param_id := 1; param_name := lit "p";
                   param_bitwidth := 8 |} ] |} ];
     action_profiles :=
       [ {| action_profile_preamble :=
              {| pre_id := 9; pre_name := lit "pipe.ap";
                 pre_alias := lit "ap" |} |} ] |}.

(** A schema in which the alias of the first table is the name of the
    second. *)
Definition colliding_p4info : P4Info :=
  {| tables :=
       [ {| table_preamble :=
              {| pre_id := 1; pre_name := lit "a"; pre_alias := lit "b" |};
            match_fields := []; action_refs := []; implementation_id := 0 |};
         {| table_preamble :=
              {| pre_id := 2; pre_name := lit "b"; pre_alias := [] |};
            match_fields := []; action_refs := []; implementation_id := 0 |} ];
     actions := [];
     action_profiles := [] |}.

Definition error_ok : P4Error :=
  {| canonical_code := 0; message := []; space := []; code := 0 |}.

Definition error_not_found : P4Error :=
  {| canonical_code := 5; message := lit "no such entry"; space := [];
     code := 0 |}.

(** A string of decimal digits: not empty, every character in [0-9]. *)
Definition decimal (i : str) : bool :=
  match i with
  | [] => false
  | _ => forallb is_digit i
  end.

(** The member references that the group builder is to make of the
    tokens: one per digit string, with its decimal value, in order. *)
Definition member_refs (members : list str) : list ActionProfileGroup_Member :=
  map (fun i => {| member_id := digits_value i |}) (filter decimal members).

(** The one-character string ["²"] (U+00B2, superscript two). *)
Definition superscript_two : str := ["178"%char].

(** A failed batch of two updates: the first went through, the second
    did not. *)
Definition demo_status : Status :=
  {| status_code := 2; status_message := lit "batch failed";
     details := [Any_p4_Error error_ok; Any_p4_Error error_not_found] |}.

Definition demo_grpc_error : RpcError :=
  {| rpc_code := 2; rpc_details := lit "batch failed";
     trailing_metadata :=
       [(lit "content-type", []); (lit "grpc-status-details-bin", [Byte.x08])] |}.

(** A failure with no structured payload in its metadata. *)
Definition bare_grpc_error : RpcError :=
  {| rpc_code := 2; rpc_details := lit "unknown";
     trailing_metadata := [(lit "content-type", [])] |}.

Definition details_key : str := lit "grpc-status-details-bin".

Definition demo_client : P4RuntimeClient :=
  {| device_id := 1; election_id := (1, 0) |}.

Definition empty_world : world :=
  {| stdout := []; logging := []; stream_out_q := []; stream_in_q := [];
     wire := []; clock := 0%Q; receiver_running := false |}.

(** A world in which the receiver thread will deliver [q]. *)
Definition world_receiving (q : list (Q * option StreamMessageResponse))
  : world :=
  {| stdout := []; logging := []; stream_out_q := []; stream_in_q := q;
     wire := []; clock := 0%Q; receiver_running := false |}.

(** An event of the inbound queue that [get_stream_packet] passes over
    while it waits for [type_] until [deadline]: a message of another
    kind that arrives in time. *)
Definition passed_over (type_ : str) (deadline : Q)
    (ev : Q * option StreamMessageResponse) : Prop :=
  (fst ev <= deadline)%Q /\
  exists m, snd ev = Some m /\ HasField m type_ = Ok false.

(** A device that answers every call. *)
Definition demo_GetForwardingPipelineConfig (device_id_ : Z) : result P4Info :=
  Ok demo_p4info.

Definition demo_Write (req : WriteRequest) : result unit := Ok tt.

(** What a command leaves when it only prints [line]. *)
Definition only_prints (line : string) (w : world)
    (out : option (result unit) * world) : Prop :=
  fst out = Some (Ok tt) /\
  stdout (snd out) = stdout w ++ [line] /\
  wire (snd out) = wire w /\
  stream_out_q (snd out) = stream_out_q w.

(** [c.lower()] on one character of the ASCII range. *)
Definition lower_char (c : ascii) : ascii :=
  let n := N_of_ascii c in
  if (65 <=? n)%N && (n <=? 90)%N then ascii_of_N (n + 32) else c.

(** A text of one to three decimal digits: what [\d{1,3}] matches. *)
Definition octet_text (s : str) : Prop :=
  forallb is_digit s = true /\ (1 <= List.length s <= 3)%nat.

(** A record of a failed update: it unpacks, and its code is not OK. *)
Definition failed_record (a : Any) : Prop :=
  exists e, a = Any_p4_Error e /\ canonical_code e <> code_pb2_OK.

(** A table of the schema with the canonical name [table_name] that has
    the match field [mf]. *)
Definition field_of_table (p4info : P4Info) (table_name : str)
    (mf : MatchField) : Prop :=
  exists t, In t (tables p4info) /\
            pre_name (table_preamble t) = table_name /\
            In mf (match_fields t).

(** A batch of two updates that both failed, and one whose second record
    is of another type. *)
Definition error_denied : P4Error :=
  {| canonical_code := 7; message := lit "not master"; space := [];
     code := 0 |}.

Definition failed_status : Status :=
  {| status_code := 2; status_message := lit "batch failed";
     details := [Any_p4_Error error_not_found; Any_p4_Error error_denied] |}.

Definition mixed_status : Status :=
  {| status_code := 2; status_message := lit "batch failed";
     details := [Any_p4_Error error_not_found;
                 Any_other (lit "type.googleapis.com/google.rpc.DebugInfo")] |}.

(** An action of the schema with the canonical name [action_name] that
    has the parameter [p]. *)
Definition param_of_action (p4info : P4Info) (action_name : str)
    (p : Param) : Prop :=
  exists a, In a (actions p4info) /\
            pre_name (action_preamble a) = action_name /\
            In p (params a).

(* ===================================================================== *)
(** * Properties *)
(* ===================================================================== *)

(** ** Hex digits *)

Lemma nibble_cases (d : N) :
  (d < 16)%N ->
  d = 0%N \/ d = 1%N \/ d = 2%N \/ d = 3%N \/ d = 4%N \/ d = 5%N \/
  d = 6%N \/ d = 7%N \/ d = 8%N \/ d = 9%N \/ d = 10%N \/ d = 11%N \/
  d = 12%N \/ d = 13%N \/ d = 14%N \/ d = 15%N.
Proof. lia. Qed.

Lemma hex_val_nibble (d : N) :
  (d < 16)%N -> hex_val (nibble_char d) = Some d.
Proof.
  intros H. pose proof (nibble_cases d H) as C.
  repeat (destruct C as [-> | C]; [reflexivity |]). subst d. reflexivity.
Qed.

Lemma N_of_byte_of_N (m : N) : (m < 256)%N -> N_of_byte (byte_of_N m) = m.
Proof.
  intros H. unfold N_of_byte, byte_of_N.
  rewrite ascii_of_byte_of_ascii. now apply N_ascii_embedding.
Qed.

Lemma byte_nibbles (a b : N) :
  (a < 16)%N -> (b < 16)%N ->
  (N_of_byte (byte_of_N (16 * a + b)) / 16 = a /\
   N_of_byte (byte_of_N (16 * a + b)) mod 16 = b)%N.
Proof.
  intros Ha Hb. rewrite N_of_byte_of_N by lia. split.
  - symmetry. apply (N.div_unique _ _ a b); [exact Hb | reflexivity].
  - symmetry. apply (N.mod_unique _ _ a b); [exact Hb | reflexivity].
Qed.

(** The hex codec reads back what it wrote: a text of [2 * k] lower-case
    hex digits decodes to [k] bytes, which encode to the same text. *)
Lemma a2b_hex_lower (k : nat) :
  forall s : str,
    List.length s = (2 * k)%nat -> lower_hex s ->
    exists bs, a2b_hex s = Ok bs /\ List.length bs = k /\ b2a_hex bs = s.
Proof.
  induction k as [| k IH]; intros s Hlen Hs.
  - destruct s; [| discriminate]. exists []. repeat split.
  - destruct s as [| h [| l rest]]; try (simpl in Hlen; lia).
    inversion Hs as [| ? ? [a [Ha ->]] Hs']; subst.
    inversion Hs' as [| ? ? [b [Hb ->]] Hrest]; subst.
    destruct (IH rest) as [bs [E [L R]]]; [simpl in Hlen; lia | exact Hrest |].
    exists (byte_of_N (16 * a + b) :: bs).
    destruct (byte_nibbles a b Ha Hb) as [Hd Hm].
    cbn [a2b_hex b2a_hex]. rewrite !hex_val_nibble by assumption.
    rewrite E. cbn [bind]. rewrite Hd, Hm, R, <- L. repeat split.
Qed.

Lemma lower_hex_app (s t : str) : lower_hex s -> lower_hex t -> lower_hex (s ++ t).
Proof. intros; apply Forall_app; now split. Qed.

Lemma lower_hex_zeros (k : nat) : lower_hex (repeat "0"%char k).
Proof.
  induction k; constructor; [| assumption].
  exists 0%N. split; [lia | reflexivity].
Qed.

Lemma lower_hex_digits_le (fuel : nat) :
  forall n, lower_hex (hex_digits_le fuel n).
Proof.
  induction fuel as [| f IH]; intros n; cbn [hex_digits_le]; [constructor |].
  constructor.
  - exists (n mod 16)%N. split; [apply N.mod_lt; lia | reflexivity].
  - destruct (n / 16 =? 0)%N; [constructor | apply IH].
Qed.

Lemma lower_hex_of_N (n : N) : lower_hex (hex_of_N n).
Proof. apply Forall_rev, lower_hex_digits_le. Qed.

(** [int16] on lower-case hex digits is the positional value. *)
Lemma int16_fold (s : str) :
  lower_hex s ->
  forall acc,
    fold_left
      (fun acc c =>
         a <- acc ;;
         match hex_val c with
         | Some d => Ok (16 * a + Z.of_N d)
         | None => Raise ValueError
         end) s (Ok acc)
    = Ok (fold_left
            (fun acc c =>
               16 * acc + match hex_val c with Some d => Z.of_N d | None => 0 end)
            s acc).
Proof.
  induction 1 as [| c s [d [Hd ->]] _ IH]; intros acc; [reflexivity |].
  cbn [fold_left bind]. rewrite hex_val_nibble by assumption. apply IH.
Qed.

Lemma int16_lower_hex (s : str) :
  lower_hex s -> s <> [] -> int16 s = Ok (hex_digits_value s).
Proof.
  intros Hs Hne. unfold int16, hex_digits_value.
  destruct s; [congruence |]. now apply int16_fold.
Qed.

Lemma hex_digits_value_zeros (k : nat) (s : str) :
  hex_digits_value (repeat "0"%char k ++ s) = hex_digits_value s.
Proof.
  unfold hex_digits_value. rewrite fold_left_app. f_equal.
  induction k; [reflexivity | exact IHk].
Qed.

(** The digits written for [n] have the value [n], when the fuel covers
    them. *)
Lemma hex_digits_le_value (fuel : nat) :
  forall n,
    (n < 16 ^ N.of_nat fuel)%N ->
    fold_right
      (fun c v =>
         16 * v + match hex_val c with Some d => Z.of_N d | None => 0 end)
      0 (hex_digits_le fuel n) = Z.of_N n.
Proof.
  induction fuel as [| f IH]; intros n Hn.
  - simpl in Hn. assert (n = 0%N) by lia. subst. reflexivity.
  - cbn [hex_digits_le fold_right].
    rewrite hex_val_nibble by (apply N.mod_lt; lia).
    pose proof (N.div_mod n 16 ltac:(lia)) as Hdm.
    destruct (N.eqb_spec (n / 16) 0) as [Hz | Hnz].
    + cbn [fold_right]. rewrite Hz in Hdm. lia.
    + rewrite IH; [lia |].
      rewrite Nat2N.inj_succ, N.pow_succ_r' in Hn.
      apply N.Div0.div_lt_upper_bound. lia.
Qed.

Lemma pow16_fuel (n : N) : (n < 16 ^ N.of_nat (S (N.to_nat (N.log2 n))))%N.
Proof.
  rewrite Nat2N.inj_succ, N2Nat.id.
  destruct (N.eq_dec n 0) as [-> | Hn]; [reflexivity |].
  pose proof (N.log2_spec n ltac:(lia)) as [_ Hlt].
  eapply N.lt_le_trans; [exact Hlt |].
  apply N.pow_le_mono_l. lia.
Qed.

Lemma hex_of_N_value (n : N) : hex_digits_value (hex_of_N n) = Z.of_N n.
Proof.
  unfold hex_digits_value, hex_of_N.
  rewrite <- (hex_digits_le_value _ n (pow16_fuel n)).
  rewrite <- fold_left_rev_right, rev_involutive. reflexivity.
Qed.

Lemma hex_digits_le_length (fuel : nat) :
  forall n k,
    (n < 16 ^ N.of_nat (S k))%N ->
    (List.length (hex_digits_le fuel n) <= S k)%nat.
Proof.
  induction fuel as [| f IH]; intros n k Hn; cbn [hex_digits_le]; [simpl; lia |].
  destruct (N.eqb_spec (n / 16) 0) as [Hz | Hnz]; [simpl; lia |].
  cbn [List.length]. apply le_n_S.
  destruct k as [| k].
  - exfalso. apply Hnz. apply N.div_small. simpl in Hn. lia.
  - apply IH. rewrite Nat2N.inj_succ, N.pow_succ_r' in Hn.
    apply N.Div0.div_lt_upper_bound. lia.
Qed.

Lemma hex_of_N_nonempty (n : N) : hex_of_N n <> [].
Proof.
  unfold hex_of_N. cbn [hex_digits_le]. intros H.
  apply (f_equal (@List.length ascii)) in H.
  rewrite length_rev in H. simpl in H. lia.
Qed.

(** ** Wire value codec *)

Lemma bitwidthToBytes_covers (bitwidth : Z) :
  bitwidth <= 8 * bitwidthToBytes bitwidth.
Proof.
  unfold bitwidthToBytes.
  pose proof (Z.div_mod (bitwidth + 7) 8 ltac:(lia)).
  pose proof (Z.mod_pos_bound (bitwidth + 7) 8 ltac:(lia)). lia.
Qed.

Lemma bitwidthToBytes_pos (bitwidth : Z) :
  1 <= bitwidth -> 1 <= bitwidthToBytes bitwidth.
Proof.
  intros H. unfold bitwidthToBytes.
  apply Z.div_le_lower_bound; lia.
Qed.

(** A number below [2^bitwidth] has at most two hex digits per byte. *)
Lemma hex_of_N_fits (n bitwidth : Z) :
  1 <= bitwidth -> 0 <= n < 2 ^ bitwidth ->
  len (hex_of_N (Z.to_N n)) <= 2 * bitwidthToBytes bitwidth.
Proof.
  intros Hbw Hn.
  pose proof (bitwidthToBytes_pos _ Hbw) as Hpos.
  pose proof (bitwidthToBytes_covers bitwidth) as Hcov.
  set (B := bitwidthToBytes bitwidth) in *.
  unfold len, hex_of_N. rewrite length_rev.
  assert (Hk : exists k, Z.of_nat (S k) = 2 * B).
  { exists (Z.to_nat (2 * B - 1)). lia. }
  destruct Hk as [k Hk]. rewrite <- Hk.
  apply Nat2Z.inj_le, hex_digits_le_length.
  apply N2Z.inj_lt. rewrite N2Z.inj_pow, Z2N.id by lia.
  rewrite nat_N_Z, Hk. change (Z.of_N 16) with (2 ^ 4).
  rewrite <- Z.pow_mul_r by lia.
  eapply Z.lt_le_trans; [apply Hn |].
  apply Z.pow_le_mono_r; lia.
Qed.

(** C4, at the input where it fails: [bitwidth = 0] admits [n = 0], whose
    single digit ["0"] is prepended by no padding, and the hex codec
    refuses a text of odd length. *)
Lemma encodeNum_zero_width_fails :
  0 <= 0 < 2 ^ 0 /\ encodeNum 0 0 = Raise BinasciiError.
Proof. split; [lia | reflexivity]. Qed.

(** C4 (amended): for every bitwidth of at least one bit and every [n]
    with [0 <= n < 2^bitwidth], [encodeNum] returns a byte string that
    [decodeNum] maps back to [n], of length [ceil(bitwidth/8)]. *)
Theorem encodeNum_decodeNum_roundtrip (n bitwidth : Z) :
  1 <= bitwidth -> 0 <= n < 2 ^ bitwidth ->
  exists encoded,
    encodeNum n bitwidth = Ok encoded /\
    decodeNum encoded = Ok n /\
    len encoded = bitwidthToBytes bitwidth.
Proof.
  intros Hbw Hn.
  pose proof (hex_of_N_fits n bitwidth Hbw Hn) as Hfit.
  pose proof (bitwidthToBytes_pos _ Hbw) as Hpos.
  unfold encodeNum, ge_pow2, format_x.
  replace (0 <=? bitwidth) with true by (symmetry; apply Z.leb_le; lia).
  replace (2 ^ bitwidth <=? n) with false by (symmetry; apply Z.leb_gt; lia).
  replace (n <? 0) with false by (symmetry; apply Z.ltb_ge; lia).
  set (B := bitwidthToBytes bitwidth) in *.
  set (num_str := hex_of_N (Z.to_N n)) in *.
  set (val := repeat "0"%char (Z.to_nat (B * 2 - len num_str)) ++ num_str).
  assert (Hval : lower_hex val).
  { apply lower_hex_app; [apply lower_hex_zeros | apply lower_hex_of_N]. }
  assert (Hlen : List.length val = (2 * Z.to_nat B)%nat).
  { unfold val. rewrite length_app, repeat_length. unfold len in *. lia. }
  destruct (a2b_hex_lower (Z.to_nat B) val Hlen Hval) as [bs [E [L R]]].
  exists bs. split; [exact E |]. split.
  - unfold decodeNum. rewrite R.
    rewrite int16_lower_hex; [| exact Hval |].
    + unfold val. rewrite hex_digits_value_zeros.
      unfold num_str. rewrite hex_of_N_value. f_equal. lia.
    + intros Hnil. rewrite Hnil in Hlen. simpl in Hlen. lia.
  - unfold len. rewrite L. lia.
Qed.

Lemma encodeNum_decodeNum_roundtrip_witness :
  exists encoded,
    encodeNum 1000 12 = Ok encoded /\
    decodeNum encoded = Ok 1000 /\
    len encoded = bitwidthToBytes 12.
Proof.
  apply (encodeNum_decodeNum_roundtrip 1000 12); [lia |].
  split; [lia | reflexivity].
Defined.

(** C5: a number that is at least [2^bitwidth] is refused by [encodeNum]
    with the exception raised at its range check; no byte string is
    returned. *)
Theorem encodeNum_rejects_wide (n bitwidth : Z) :
  at_least_pow2 n bitwidth -> encodeNum n bitwidth = Raise PyException.
Proof.
  unfold at_least_pow2, encodeNum, ge_pow2. intros H.
  destruct (0 <=? bitwidth).
  - apply Z.leb_le in H. now rewrite H.
  - destruct (bitwidth <? -1074).
    + replace (0 <=? n) with true by (symmetry; apply Z.leb_le; lia).
      reflexivity.
    + apply Z.leb_le in H. now rewrite H.
Qed.

Lemma encodeNum_rejects_wide_witness :
  at_least_pow2 256 8 /\ encodeNum 256 8 = Raise PyException.
Proof.
  split.
  - unfold at_least_pow2. simpl. lia.
  - apply (encodeNum_rejects_wide 256 8). unfold at_least_pow2. simpl. lia.
Defined.

(** C10, at an input where the code fails: the one-character string ["²"]
    (U+00B2) is neither a MAC address, nor an IPv4 address, nor a string
    of decimal digits, and its length is [ceil(8/8)]: it is expected back
    unchanged. It passes [str.isdigit], [int] refuses it, and [encode]
    raises [ValueError], for every bit width. *)
Theorem encode_superscript_digit (inet_aton : str -> result bytes) :
  matchesMac superscript_two = false /\
  matchesIPv4 superscript_two = false /\
  decimal superscript_two = false /\
  len superscript_two = bitwidthToBytes 8 /\
  forall bitwidth,
    encode inet_aton (VStr superscript_two) bitwidth = Raise ValueError.
Proof. repeat split. Qed.

(** X28: a string that is neither a MAC address, nor an IPv4 address, and
    that [str.isdigit] refuses is taken as already encoded: [encode]
    returns the string itself (a [str], not [bytes]) when its length is
    [ceil(bitwidth/8)] and fails its assertion otherwise. *)
Theorem encode_opaque_string
    (inet_aton : str -> result bytes) (x : str) (bitwidth : Z) :
  matchesMac x = false -> matchesIPv4 x = false -> isdigit x = false ->
  encode inet_aton (VStr x) bitwidth =
    if len x =? bitwidthToBytes bitwidth then Ok (VStr x)
    else Raise AssertionError.
Proof.
  intros Hmac Hip Hdig. unfold encode.
  cbn [bind]. rewrite Hmac, Hip, Hdig. cbn [bind py_len].
  destruct (len x =? bitwidthToBytes bitwidth); reflexivity.
Qed.

Lemma encode_opaque_string_witness :
  encode inet_aton_dotted (VStr (lit "ab")) 16 =
    if len (lit "ab") =? bitwidthToBytes 16 then Ok (VStr (lit "ab"))
    else Raise AssertionError.
Proof. apply (encode_opaque_string inet_aton_dotted (lit "ab") 16); reflexivity. Defined.

(** ** Strings and numbers *)

Lemma str_eqb_eq (s t : str) : str_eqb s t = true <-> s = t.
Proof.
  revert t. induction s as [| a s IH]; intros [| b t]; simpl;
    try (split; [discriminate | congruence]); [tauto |].
  unfold ascii_eqb. rewrite andb_true_iff, Ascii.eqb_eq, IH.
  split; [intros [-> ->]; reflexivity | intros [= -> ->]; auto].
Qed.

Lemma str_eqb_refl (s : str) : str_eqb s s = true.
Proof. now apply str_eqb_eq. Qed.

Lemma is_digit_range (c : ascii) :
  is_digit c = true -> (48 <= N_of_ascii c <= 57)%N.
Proof.
  unfold is_digit. rewrite andb_true_iff, !N.leb_le. tauto.
Qed.

Lemma digit_not_space (c : ascii) : is_digit c = true -> is_space c = false.
Proof.
  intros H%is_digit_range. unfold is_space.
  repeat (apply orb_false_iff; split).
  - apply andb_false_iff. right. apply N.leb_gt. lia.
  - apply N.eqb_neq. lia.
  - apply N.eqb_neq. lia.
  - apply N.eqb_neq. lia.
Qed.

Lemma digit_not_char (c d : ascii) :
  is_digit c = true -> (N_of_ascii d < 48)%N \/ (57 < N_of_ascii d)%N ->
  ascii_eqb c d = false.
Proof.
  intros H%is_digit_range Hd. unfold ascii_eqb.
  apply Ascii.eqb_neq. intros ->. lia.
Qed.

Lemma lstrip_digit (c : ascii) (s : str) :
  is_digit c = true -> lstrip (c :: s) = c :: s.
Proof. intros H. simpl. now rewrite (digit_not_space c H). Qed.

Lemma strip_digits (s : str) : forallb is_digit s = true -> strip s = s.
Proof.
  intros H. unfold strip.
  assert (L : forall t, forallb is_digit t = true -> lstrip t = t).
  { intros [| c t] Ht; [reflexivity |].
    simpl in Ht. apply andb_true_iff in Ht. now apply lstrip_digit. }
  rewrite (L s H), L, rev_involutive; [reflexivity |].
  rewrite forallb_forall in *. intros c Hc. apply H. now apply in_rev.
Qed.

Lemma literal_digits_all (s : str) :
  forallb is_digit s = true ->
  literal_digits is_digit true s = Some s.
Proof.
  induction s as [| c s IH]; intros H; [reflexivity |].
  simpl in H. apply andb_true_iff in H as [Hc Hs].
  simpl. now rewrite Hc, IH.
Qed.

(** On a string of digits [int] is the decimal value. *)
Lemma py_int_digits (s : str) :
  decimal s = true -> py_int s = Ok (digits_value s).
Proof.
  unfold decimal, py_int. destruct s as [| c s]; [discriminate |].
  intros H. rewrite (strip_digits _ H).
  simpl in H. apply andb_true_iff in H as [Hc Hs].
  unfold split_sign.
  rewrite (digit_not_char c "-"%char Hc) by (left; reflexivity).
  rewrite (digit_not_char c "+"%char Hc) by (left; reflexivity).
  cbn [literal_digits]. now rewrite Hc, (literal_digits_all s Hs).
Qed.

(** ** Builders *)

Lemma comprehension_length {A B} (f : A -> result B) (l : list A) :
  forall ys, comprehension f l = Ok ys -> List.length ys = List.length l.
Proof.
  induction l as [| x l IH]; intros ys H; simpl in H.
  - injection H as <-. reflexivity.
  - destruct (f x); [| discriminate]. simpl in H.
    destruct (comprehension f l) as [ys' |]; [| discriminate].
    injection H as <-. simpl. f_equal. now apply IH.
Qed.

Lemma comprehension_Forall2 {A B} (f : A -> result B) (l : list A) :
  forall ys, comprehension f l = Ok ys ->
             Forall2 (fun x y => f x = Ok y) l ys.
Proof.
  induction l as [| x l IH]; intros ys H; simpl in H.
  - injection H as <-. constructor.
  - destruct (f x) as [y |] eqn:Hy; [| discriminate]. simpl in H.
    destruct (comprehension f l) as [ys' |]; [| discriminate].
    injection H as <-. constructor; [exact Hy | now apply IH].
Qed.

(** Takes the first step of a computation that is known to return. *)
Ltac bind_inv H x E :=
  match type of H with
  | bind ?c _ = Ok _ =>
      destruct c as [x |] eqn:E; [cbn [bind] in H | discriminate H]
  end.

Lemma decimal_isdigit (s : str) : decimal s = true -> isdigit s = true.
Proof.
  unfold decimal, isdigit. destruct s as [| c s]; [discriminate |].
  intros H. rewrite forallb_forall in *. intros x Hx.
  unfold isdigit_char. now rewrite (H x Hx).
Qed.

Lemma uint32_field_ok (v : Z) : 0 <= v < 2 ^ 32 -> uint32_field v = Ok v.
Proof.
  intros [Hlo Hhi]. unfold uint32_field.
  apply Z.leb_le in Hlo. apply Z.ltb_lt in Hhi. now rewrite Hlo, Hhi.
Qed.

Lemma int32_field_ok (v : Z) :
  - 2 ^ 31 <= v < 2 ^ 31 -> int32_field v = Ok v.
Proof.
  intros [Hlo Hhi]. unfold int32_field.
  apply Z.leb_le in Hlo. apply Z.ltb_lt in Hhi. now rewrite Hlo, Hhi.
Qed.

Lemma digits_value_nonneg (s : str) :
  forallb is_digit s = true -> 0 <= digits_value s.
Proof.
  unfold digits_value.
  enough (H : forall acc, 0 <= acc -> forallb is_digit s = true ->
            0 <= fold_left (fun a c => 10 * a + digit_val c) s acc)
    by (apply H; lia).
  induction s as [| c s IH]; intros acc Hacc Hs; cbn [fold_left];
    [exact Hacc |].
  cbn [forallb] in Hs. apply andb_true_iff in Hs as [Hc Hs].
  apply IH; [| exact Hs].
  apply is_digit_range in Hc. unfold digit_val. lia.
Qed.

Lemma add_members_refs (members : list str) :
  Forall (fun i => isdigit i = decimal i /\
                   (decimal i = true -> digits_value i < 2 ^ 32)) members ->
  forall acc, add_members members acc = Ok (acc ++ member_refs members).
Proof.
  unfold member_refs.
  induction 1 as [| i rest [Hi Hr] _ IH]; intros acc; simpl.
  - now rewrite app_nil_r.
  - rewrite Hi. destruct (decimal i) eqn:Hd.
    + rewrite (py_int_digits i Hd). cbn [bind].
      rewrite uint32_field_ok.
      * cbn [bind]. rewrite IH. simpl. now rewrite <- app_assoc.
      * split; [| now apply Hr].
        apply digits_value_nonneg. unfold decimal in Hd.
        now destruct i.
    + apply IH.
Qed.

(** On tokens that [str.isdigit] and [int] agree on and that fit the
    [member_id] field, with a group id and a size that fit theirs, the
    group builder does what is expected of it: one member reference for
    each token that is a string of decimal digits, with the token's value
    as [member_id], in the order of the input; the other tokens leave no
    trace. *)
Lemma buildActionProfileGroup_members
    (p4info : P4Info) (table_name : str) (group_id max_size pid : Z)
    (members : list str) :
  Forall (fun i => isdigit i = decimal i /\
                   (decimal i = true -> digits_value i < 2 ^ 32)) members ->
  0 <= group_id < 2 ^ 32 ->
  - 2 ^ 31 <= max_size < 2 ^ 31 ->
  get_action_profiles_id p4info table_name = Ok pid ->
  buildActionProfileGroup p4info table_name group_id max_size members =
    Ok {| apg_action_profile_id := pid; apg_group_id := group_id;
          apg_members := member_refs members;
          apg_max_size := max_size |}.
Proof.
  intros Hm Hg Hs Hpid. unfold buildActionProfileGroup.
  rewrite Hpid. cbn [bind]. rewrite (uint32_field_ok _ Hg). cbn [bind].
  rewrite add_members_refs by exact Hm. cbn [bind app].
  now rewrite (int32_field_ok _ Hs).
Qed.

(** C9, at an input where the code fails: the token ["²"] (U+00B2) is not
    a string of decimal digits and is expected to be dropped, leaving the
    one member of the token ["1"]; it passes [str.isdigit], [int] refuses
    it, and the builder raises [ValueError]. The same happens in
    [p4ctl_add_group], which hands the text of [reference_members] to the
    builder character by character: the schema is fetched and nothing is
    written. *)
Theorem buildActionProfileGroup_superscript_digit :
  decimal superscript_two = false /\
  member_refs [lit "1"; superscript_two] = [ {| member_id := 1 |} ] /\
  buildActionProfileGroup demo_p4info (lit "pipe.ap") 1 2
    [lit "1"; superscript_two] = Raise ValueError /\
  forall fuel,
    p4ctl_add_group (parse_as demo_status)
      demo_GetForwardingPipelineConfig demo_Write
      fuel demo_client (lit "br0") (lit "pipe.ap")
      (lit "group_id=1,reference_members=(1," ++ superscript_two
         ++ lit "),max_size=2")
      empty_world
    = (Some (Raise ValueError),
       call (rpc_GetForwardingPipelineConfig 1) empty_world).
Proof. repeat split. Qed.

(** C1, at an input where it fails: a default entry built with a match
    key keeps the encoded key. *)
Lemma buildTableEntry_default_keeps_match :
  buildTableEntry inet_aton_dotted demo_p4info (lit "pipe.t")
    (Some [(lit "f", VStr (lit "5"))]) true None None None 0 0 =
    Ok {| table_id := 1; priority := 0;
          match_ := [ {| field_id := 1;
                         field_match := fm_exact (VBytes [Byte.x05]) |} ];
          is_default_action := true; action := ta_unset |}.
Proof. reflexivity. Qed.

(** C1 (amended): an entry that [buildTableEntry] returns for
    [default_action = True] has [is_default_action] set; it has no match
    field when [match_fields] is absent or empty, and otherwise it holds,
    in the order of [match_fields], one match field for each item: the
    field that [get_match_field_pb] encodes from the item's name and
    value. *)
Theorem buildTableEntry_default_action
    (inet_aton : str -> result bytes) (p4info : P4Info) (table_name : str)
    (match_fields_ : option (list (str * pyval)))
    (action_name : option str) (action_params : option (list (str * pyval)))
    (priority_ : option Z) (group_id member_id_ : Z) (te : TableEntry) :
  buildTableEntry inet_aton p4info table_name match_fields_ true
    action_name action_params priority_ group_id member_id_ = Ok te ->
  is_default_action te = true /\
  Forall2
    (fun item fm =>
       get_match_field_pb inet_aton p4info table_name (fst item) (snd item)
       = Ok fm)
    (items match_fields_) (match_ te) /\
  List.length (match_ te) = List.length (items match_fields_) /\
  (truthy_dict match_fields_ = false -> match_ te = []).
Proof.
  unfold buildTableEntry. intros H.
  bind_inv H tid Htid. bind_inv H prio Hprio. bind_inv H m Hm.
  bind_inv H act Hact. bind_inv H act' Hact'. bind_inv H act'' Hact''.
  injection H as <-. cbn [is_default_action match_].
  assert (HF : Forall2
            (fun item fm =>
               get_match_field_pb inet_aton p4info table_name
                 (fst item) (snd item) = Ok fm)
            (items match_fields_) m).
  { destruct (truthy_dict match_fields_) eqn:Hmf.
    - apply comprehension_Forall2 in Hm.
      revert Hm. apply Forall2_impl. now intros [n v] fm.
    - injection Hm as <-.
      destruct match_fields_ as [[| ? ?] |];
        [constructor | discriminate | constructor]. }
  split; [reflexivity |]. split; [exact HF |].
  split; [symmetry; exact (Forall2_length HF) |].
  intros Hmf. rewrite Hmf in Hm. now injection Hm as <-.
Qed.

Lemma buildTableEntry_default_action_witness :
  let te :=
    {| table_id := 1; priority := 0;
       match_ := [ {| field_id := 1;
                      field_match := fm_exact (VBytes [Byte.x05]) |} ];
       is_default_action := true;
       action :=
         ta_action
           {| action_id := 7;
              action_params_pb :=
                [ {| ap_param_id := 1; ap_value := VBytes [Byte.x0a] |} ] |} |} in
  let match_fields_ := Some [(lit "f", VStr (lit "5"))] in
  is_default_action te = true /\
  Forall2
    (fun item fm =>
       get_match_field_pb inet_aton_dotted demo_p4info (lit "pipe.t")
         (fst item) (snd item) = Ok fm)
    (items match_fields_) (match_ te) /\
  List.length (match_ te) = List.length (items match_fields_) /\
  (truthy_dict match_fields_ = false -> match_ te = []).
Proof.
  apply (buildTableEntry_default_action inet_aton_dotted demo_p4info
           (lit "pipe.t") (Some [(lit "f", VStr (lit "5"))])
           (Some (lit "pipe.a")) (Some [(lit "p", VInt 10)]) None 0 0).
  reflexivity.
Defined.

(** ** Schema lookups *)

Section Lookups.

Variable objs : list entity.

Lemma get_scan_by_id_sound (id : Z) (o : entity) :
  get_scan objs None (Some id) = Some o ->
  In o objs /\ pre_id (preamble o) = id.
Proof.
  induction objs as [| x rest IH]; simpl; [discriminate |].
  destruct (pre_id (preamble x) =? id) eqn:E.
  - intros [= <-]. apply Z.eqb_eq in E. auto.
  - intros H. destruct (IH H). auto.
Qed.

Lemma get_scan_by_id_finds (o : entity) :
  In o objs ->
  exists o', get_scan objs None (Some (pre_id (preamble o))) = Some o'.
Proof.
  induction objs as [| x rest IH]; simpl; [tauto |].
  intros [-> | Hin].
  - rewrite Z.eqb_refl. eauto.
  - destruct (pre_id (preamble x) =? pre_id (preamble o)); eauto.
Qed.

Lemma get_scan_by_name_sound (c : ascii) (n : str) (o : entity) :
  get_scan objs (Some (c :: n)) None = Some o ->
  In o objs /\ In (c :: n) (labels o).
Proof.
  induction objs as [| x rest IH]; simpl; [discriminate |].
  destruct (str_eqb (pre_name (preamble x)) (c :: n)
            || str_eqb (pre_alias (preamble x)) (c :: n)) eqn:E.
  - intros [= <-]. split; [auto |].
    apply orb_true_iff in E as [E | E]; apply str_eqb_eq in E;
      unfold labels; rewrite E; simpl; auto.
  - intros H. destruct (IH H). auto.
Qed.

Lemma get_scan_by_name_finds (c : ascii) (n : str) (o : entity) :
  In o objs -> In (c :: n) (labels o) ->
  exists o', get_scan objs (Some (c :: n)) None = Some o'.
Proof.
  induction objs as [| x rest IH]; simpl; [tauto |].
  intros [-> | Hin] Hl.
  - assert (E : str_eqb (pre_name (preamble o)) (c :: n)
                || str_eqb (pre_alias (preamble o)) (c :: n) = true).
    { apply orb_true_iff.
      destruct Hl as [<- | [<- | []]]; [left | right]; apply str_eqb_refl. }
    rewrite E. eauto.
  - destruct (str_eqb (pre_name (preamble x)) (c :: n)
              || str_eqb (pre_alias (preamble x)) (c :: n)); eauto.
Qed.

Hypothesis wf : well_formed objs.

(** In a well-formed collection an id finds its entity, and a name or
    alias that is not empty finds its entity. *)
Lemma get_scan_id_of (o : entity) :
  In o objs -> get_scan objs None (Some (pre_id (preamble o))) = Some o.
Proof.
  intros Hin. destruct (get_scan_by_id_finds o Hin) as [o' H].
  destruct (get_scan_by_id_sound _ _ H) as [Hin' Hid].
  destruct wf as [_ [Hids _]]. now rewrite (Hids o' o Hin' Hin Hid) in H.
Qed.

Lemma get_scan_label_of (o : entity) (l : str) :
  In o objs -> In l (labels o) -> l <> [] ->
  get_scan objs (Some l) None = Some o.
Proof.
  intros Hin Hl Hne. destruct l as [| c n]; [congruence |].
  destruct (get_scan_by_name_finds c n o Hin Hl) as [o' H].
  destruct (get_scan_by_name_sound _ _ _ H) as [Hin' Hl'].
  destruct wf as [_ [_ Hlab]].
  now rewrite (Hlab o' o (c :: n) Hin' Hin Hne Hl' Hl) in H.
Qed.

End Lookups.

(** C6, at inputs where it fails: looking up the id of an alias and then
    the name of that id gives the canonical name, not the alias; and in a
    schema where an alias of one table is the name of another, the name of
    id 2 leads back to id 1. *)
Lemma get_name_of_alias_is_canonical :
  (get_id demo_p4info Tables (lit "t") = Ok 1 /\
   get_name demo_p4info Tables 1 = Ok (lit "pipe.t") /\
   bind (get_id demo_p4info Tables (lit "t")) (get_name demo_p4info Tables)
     <> Ok (lit "t"))
  /\
  (get_name colliding_p4info Tables 2 = Ok (lit "b") /\
   bind (get_name colliding_p4info Tables 2) (get_id colliding_p4info Tables)
     = Ok 1).
Proof. repeat split. discriminate. Qed.

(** C6 (amended): in a well-formed schema, for every kind and every
    entity of that kind, the id resolves to the canonical name and back,
    the canonical name resolves to the id and back, and an alias that is
    not empty resolves to the same id as the canonical name, from which
    [get_name] gives the canonical name. *)
Theorem get_id_get_name_consistent
    (p4info : P4Info) (kind : entity_type) (o : entity) :
  well_formed (getattr p4info kind) ->
  In o (getattr p4info kind) ->
  let pre := preamble o in
  bind (get_name p4info kind (pre_id pre)) (get_id p4info kind)
    = Ok (pre_id pre) /\
  bind (get_id p4info kind (pre_name pre)) (get_name p4info kind)
    = Ok (pre_name pre) /\
  (pre_alias pre <> [] ->
   get_id p4info kind (pre_alias pre) = get_id p4info kind (pre_name pre) /\
   bind (get_id p4info kind (pre_alias pre)) (get_name p4info kind)
     = Ok (pre_name pre)).
Proof.
  intros Hwf Hin. cbv zeta. set (pre := preamble o).
  pose proof (get_scan_id_of _ Hwf o Hin) as Hscan. fold pre in Hscan.
  assert (Hname : pre_name pre <> []) by (destruct Hwf as [H _]; now apply H).
  assert (Hid : get_name p4info kind (pre_id pre) = Ok (pre_name pre)).
  { unfold get_name, get. now rewrite Hscan. }
  assert (Hlabel : forall l, In l (labels o) -> l <> [] ->
                             get_id p4info kind l = Ok (pre_id pre)).
  { intros l Hl Hne. unfold get_id, get.
    now rewrite (get_scan_label_of _ Hwf o l Hin Hl Hne). }
  assert (Hn : get_id p4info kind (pre_name pre) = Ok (pre_id pre)).
  { apply Hlabel; [left; reflexivity | exact Hname]. }
  split; [| split].
  - rewrite Hid. exact Hn.
  - rewrite Hn. exact Hid.
  - intros Halias.
    assert (Ha : get_id p4info kind (pre_alias pre) = Ok (pre_id pre)).
    { apply Hlabel; [right; left; reflexivity | exact Halias]. }
    rewrite Ha, Hn. split; [reflexivity | exact Hid].
Qed.

Lemma demo_tables_well_formed : well_formed (getattr demo_p4info Tables).
Proof.
  repeat split.
  - intros o [<- | []]. discriminate.
  - intros o1 o2 [<- | []] [<- | []] _. reflexivity.
  - intros o1 o2 l [<- | []] [<- | []] _ _ _. reflexivity.
Qed.

Lemma get_id_get_name_consistent_witness :
  bind (get_name demo_p4info Tables 1) (get_id demo_p4info Tables) = Ok 1 /\
  bind (get_id demo_p4info Tables (lit "pipe.t")) (get_name demo_p4info Tables)
    = Ok (lit "pipe.t") /\
  (lit "t" <> [] ->
   get_id demo_p4info Tables (lit "t") = get_id demo_p4info Tables (lit "pipe.t") /\
   bind (get_id demo_p4info Tables (lit "t")) (get_name demo_p4info Tables)
     = Ok (lit "pipe.t")).
Proof.
  apply (get_id_get_name_consistent demo_p4info Tables
           (E_table
              {| table_preamble :=
                   {| pre_id := 1; pre_name := lit "pipe.t";
                      pre_alias := lit "t" |};
                 match_fields :=
                   [ {| mf_id := 1; mf_name := lit "f"; mf_bitwidth := 8;
                        mf_match_type := EXACT |} ];
                 action_refs := [7];
                 implementation_id := 0 |})).
  - exact demo_tables_well_formed.
  - left. reflexivity.
Defined.

(** ** Error decoder *)

(** [__next__] does not return while the record at [idx] has the
    canonical code OK: [continue] repeats the loop with the same [idx]. *)
Lemma next_stuck_on_OK (self : P4RuntimeErrorIterator) (e : P4Error) :
  nth_error (errors self) (idx self) = Some (Any_p4_Error e) ->
  canonical_code e = code_pb2_OK ->
  forall fuel, next fuel self = None.
Proof.
  intros Hnth Hok. induction fuel as [| fuel IH]; [reflexivity |].
  cbn [next]. rewrite Hnth. cbn [Unpack]. rewrite Hok.
  rewrite Z.eqb_refl. exact IH.
Qed.

Lemma collect_errors_stuck_on_OK (self : P4RuntimeErrorIterator) (e : P4Error)
    (acc : list (nat * P4Error)) :
  nth_error (errors self) (idx self) = Some (Any_p4_Error e) ->
  canonical_code e = code_pb2_OK ->
  forall fuel, collect_errors fuel self acc = None.
Proof.
  intros Hnth Hok [| fuel]; [reflexivity |].
  cbn [collect_errors]. now rewrite (next_stuck_on_OK self e Hnth Hok).
Qed.

(** Without a record of code OK the decoder yields every record, with its
    index, in batch order. *)
Lemma collect_errors_all_failed (g : RpcError) (rest : list Any) :
  Forall (fun a => exists e, a = Any_p4_Error e /\
                             canonical_code e <> code_pb2_OK) rest ->
  forall (before : list Any) (acc : list (nat * P4Error)) (fuel : nat),
    (List.length rest < fuel)%nat ->
    collect_errors fuel
      {| it_grpc_error := g; errors := before ++ rest;
         idx := List.length before |} acc
    = Some (Ok (acc ++ expected_errors (List.length before) rest)).
Proof.
  induction 1 as [| a rest [e [-> Hne]] _ IH]; intros before acc fuel Hfuel.
  - destruct fuel as [| fuel]; [simpl in Hfuel; lia |].
    cbn [collect_errors next errors idx].
    rewrite nth_error_app2, Nat.sub_diag by lia. cbn.
    now rewrite app_nil_r.
  - destruct fuel as [| fuel]; [simpl in Hfuel; lia |].
    cbn [collect_errors next errors idx].
    rewrite nth_error_app2, Nat.sub_diag by lia. cbn [nth_error Unpack].
    apply Z.eqb_neq in Hne. rewrite Hne.
    unfold advance. cbn [it_grpc_error errors idx].
    specialize (IH (before ++ [Any_p4_Error e]) (acc ++ [(List.length before, e)]) fuel).
    rewrite <- app_assoc, length_app in IH. cbn [List.length app] in IH.
    rewrite Nat.add_1_r in IH.
    rewrite IH by (simpl in Hfuel; lia).
    cbn [expected_errors]. rewrite Hne. now rewrite <- app_assoc.
Qed.

(** C2, at an input where the code fails: the details hold a record of
    code OK followed by a failed record. The claim expects the single pair
    [(1, error_not_found)]; [__next__] and the loop that collects the
    errors never return, whatever the fuel. *)
Theorem error_iterator_hangs_on_OK :
  expected_errors 0 (details demo_status) = [(1%nat, error_not_found)] /\
  P4RuntimeErrorIterator_init (parse_as demo_status) demo_grpc_error
    = Ok {| it_grpc_error := demo_grpc_error;
            errors := details demo_status; idx := 0 |} /\
  forall fuel,
    next fuel {| it_grpc_error := demo_grpc_error;
                 errors := details demo_status; idx := 0 |} = None /\
    P4RuntimeWriteException_init (parse_as demo_status) fuel demo_grpc_error
      = None.
Proof.
  split; [reflexivity |]. split; [reflexivity |]. intros fuel. split.
  - now apply (next_stuck_on_OK _ error_ok).
  - unfold P4RuntimeWriteException_init.
    change (P4RuntimeErrorIterator_init (parse_as demo_status) demo_grpc_error)
      with (Ok {| it_grpc_error := demo_grpc_error;
                  errors := details demo_status; idx := 0 |}).
    cbn [py_assert rpc_code demo_grpc_error Z.eqb StatusCode_UNKNOWN].
    now apply (collect_errors_stuck_on_OK _ error_ok).
Qed.

Lemma scan_metadata_absent
    (parse : bytes -> result Status) (metas : list (str * bytes)) :
  Forall (fun meta => fst meta <> details_key) metas ->
  scan_metadata parse metas = Ok None.
Proof.
  induction 1 as [| meta rest Hne _ IH]; [reflexivity |].
  cbn [scan_metadata]. fold details_key.
  destruct (str_eqb (fst meta) details_key) eqn:E; [| exact IH].
  apply str_eqb_eq in E. contradiction.
Qed.

Lemma scan_metadata_first
    (parse : bytes -> result Status) (before after : list (str * bytes))
    (payload : bytes) :
  Forall (fun meta => fst meta <> details_key) before ->
  scan_metadata parse (before ++ (details_key, payload) :: after)
    = bind (parse payload) (fun error => Ok (Some error)).
Proof.
  induction 1 as [| meta rest Hne _ IH].
  - cbn [app scan_metadata fst snd]. fold details_key.
    now rewrite str_eqb_refl.
  - cbn [app scan_metadata]. fold details_key.
    destruct (str_eqb (fst meta) details_key) eqn:E; [| exact IH].
    apply str_eqb_eq in E. contradiction.
Qed.

(** C3: for a failure of status code "unknown", when the trailing
    metadata has no entry under the binary details key, or when the first
    such entry parses to a status whose details list is empty, the
    constructor of the decoder raises [P4RuntimeErrorFormatException]; the
    exception leaves [P4RuntimeWriteException] and the write decorator as
    it is, so the caller gets no list of errors. *)
Theorem error_decoder_rejects_malformed
    (parse : bytes -> result Status) (grpc_error : RpcError) :
  rpc_code grpc_error = StatusCode_UNKNOWN ->
  Forall (fun meta => fst meta <> details_key) (trailing_metadata grpc_error)
  \/ (exists before payload after st,
        trailing_metadata grpc_error
          = before ++ (details_key, payload) :: after /\
        Forall (fun meta => fst meta <> details_key) before /\
        parse payload = Ok st /\ details st = []) ->
  exists msg,
    P4RuntimeErrorIterator_init parse grpc_error
      = Raise (P4RuntimeErrorFormatException msg) /\
    forall fuel,
      P4RuntimeWriteException_init parse fuel grpc_error
        = Some (Raise (P4RuntimeErrorFormatException msg)) /\
      parse_p4runtime_write_error parse fuel
          (Raise (grpc_RpcError grpc_error) : result unit)
        = Some (Raise (P4RuntimeErrorFormatException msg)).
Proof.
  intros Hcode Hmeta.
  assert (Hinit : exists msg,
             P4RuntimeErrorIterator_init parse grpc_error
               = Raise (P4RuntimeErrorFormatException msg)).
  { unfold P4RuntimeErrorIterator_init. rewrite Hcode.
    cbn [py_assert Z.eqb StatusCode_UNKNOWN Pos.eqb bind].
    destruct Hmeta as [Habsent | (before & payload & after & st & -> & Hb & Hp & Hd)].
    - rewrite (scan_metadata_absent parse _ Habsent). cbn [bind]. eauto.
    - rewrite (scan_metadata_first parse before after payload Hb), Hp.
      cbn [bind]. rewrite Hd. cbn. eauto. }
  destruct Hinit as [msg Hinit]. exists msg. split; [exact Hinit |].
  intros fuel.
  assert (Hexc : P4RuntimeWriteException_init parse fuel grpc_error
                 = Some (Raise (P4RuntimeErrorFormatException msg))).
  { unfold P4RuntimeWriteException_init. rewrite Hcode, Hinit. reflexivity. }
  split; [exact Hexc |].
  unfold parse_p4runtime_write_error. rewrite Hexc, Hcode. reflexivity.
Qed.

Lemma error_decoder_rejects_malformed_witness :
  exists msg,
    P4RuntimeErrorIterator_init
        (parse_as demo_status) bare_grpc_error
      = Raise (P4RuntimeErrorFormatException msg) /\
    forall fuel,
      P4RuntimeWriteException_init (parse_as demo_status) fuel bare_grpc_error
        = Some (Raise (P4RuntimeErrorFormatException msg)) /\
      parse_p4runtime_write_error (parse_as demo_status) fuel
          (Raise (grpc_RpcError bare_grpc_error) : result unit)
        = Some (Raise (P4RuntimeErrorFormatException msg)).
Proof.
  apply (error_decoder_rejects_malformed (parse_as demo_status) bare_grpc_error).
  - reflexivity.
  - left. repeat constructor. discriminate.
Defined.

(** ** Arbitration *)

Lemma Qmax_bounds (a b lo hi : Q) :
  (lo <= a)%Q -> (a <= hi)%Q -> (b <= hi)%Q ->
  (lo <= Qmax a b)%Q /\ (Qmax a b <= hi)%Q.
Proof.
  intros H1 H2 H3. unfold Qmax.
  destruct (Qle_bool a b) eqn:E; [| split; assumption].
  apply Qle_bool_iff in E. split; [lra | assumption].
Qed.

(** While the clock is within the timeout, the loop neither breaks nor
    gives up on an event that arrives by the deadline. *)
Lemma loop_step_in_time (timeout start now arrival : Q) :
  (start <= now)%Q -> (now <= start + timeout)%Q ->
  (arrival <= start + timeout)%Q ->
  Qlt_bool (timeout - (now - start)) 0 = false /\
  Qle_bool arrival (now + (timeout - (now - start))) = true.
Proof.
  intros H1 H2 H3. split.
  - unfold Qlt_bool. apply negb_false_iff, Qle_bool_iff. lra.
  - apply Qle_bool_iff. lra.
Qed.

(** The loop returns the first message of the requested kind when it and
    everything queued before it arrive by the deadline. *)
Lemma get_stream_packet_loop_delivers
    (type_ : str) (timeout start : Q) (rep : StreamMessageResponse)
    (arrival : Q) (after : list (Q * option StreamMessageResponse)) :
  HasField rep type_ = Ok true ->
  (arrival <= start + timeout)%Q ->
  forall before now,
    Forall (passed_over type_ (start + timeout)) before ->
    (start <= now)%Q -> (now <= start + timeout)%Q ->
    exists now',
      get_stream_packet_loop type_ timeout start
        (before ++ (arrival, Some rep) :: after) now
      = (wait_msg rep, after, now').
Proof.
  intros Hrep Harr before.
  induction before as [| [t msg] before IH]; intros now Hb H1 H2.
  - cbn [app get_stream_packet_loop].
    destruct (loop_step_in_time timeout start now arrival H1 H2 Harr) as [-> ->].
    rewrite Hrep. cbn [negb]. eauto.
  - inversion Hb as [| ? ? [Ht [m [Hm Hf]]] Hb']; subst.
    cbn [fst snd] in Ht, Hm. subst msg.
    cbn [app get_stream_packet_loop].
    destruct (loop_step_in_time timeout start now t H1 H2 Ht) as [-> ->].
    rewrite Hf. cbn [negb].
    destruct (Qmax_bounds now t start (start + timeout)%Q H1 H2 Ht).
    now apply IH.
Qed.

(** The loop returns nothing when no message of the requested kind
    arrives by the deadline. *)
Lemma get_stream_packet_loop_times_out
    (type_ : str) (timeout start : Q) :
  forall pending now,
    (forall t m, In (t, Some m) pending -> (t <= start + timeout)%Q ->
                 HasField m type_ = Ok false) ->
    wait_value
      (fst (fst (get_stream_packet_loop type_ timeout start pending now)))
    = Ok None.
Proof.
  induction pending as [| [t msg] pending IH]; intros now Hnone;
    cbn [get_stream_packet_loop].
  - destruct (Qlt_bool _ 0); reflexivity.
  - destruct (Qlt_bool _ 0); [reflexivity |].
    destruct (Qle_bool t _) eqn:E; [| reflexivity].
    destruct msg as [m |]; [| reflexivity].
    apply Qle_bool_iff in E.
    rewrite (Hnone t m); [| now left | lra].
    cbn [negb]. apply IH. intros t' m' Hin. apply Hnone. now right.
Qed.

(** X27: the outcome of the handshake. When an arbitration reply is
    received within the timeout of 2 (it and the messages queued before
    it arrive in time, and those are of other kinds), the handshake
    completes, as master exactly when the reply's status code is OK, and
    otherwise as slave, with the warning printed; when no arbitration
    reply arrives within 2, the handshake raises [SystemExit(1)] in the
    main thread and prints nothing. *)
Theorem handshake_arbitration (self : P4RuntimeClient) (w : world) :
  (forall before arrival c after,
      stream_in_q w = before ++ (arrival, Some (rep_arbitration c)) :: after ->
      Forall (passed_over (lit "arbitration") (clock w + 2)) before ->
      (arrival <= clock w + 2)%Q ->
      exists w',
        handshake self w = (Ok tt, w') /\
        (c = code_pb2_OK ->
         logging w' = logging w
                      ++ [(DEBUG, "Session established, client is 'master'"%string)]
         /\ stdout w' = stdout w) /\
        (c <> code_pb2_OK ->
         logging w' = logging w
                      ++ [(DEBUG, "Session established, client is 'slave'"%string)]
         /\ stdout w' = stdout w
              ++ ["You are not master, you only have read access to the server"%string]))
  /\
  ((forall t m, In (t, Some m) (stream_in_q w) -> (t <= clock w + 2)%Q ->
                HasField m (lit "arbitration") = Ok false) ->
   exists w',
     handshake self w = (Raise (SystemExit 1), w') /\ stdout w' = stdout w).
Proof.
  split.
  - intros before arrival c after Hq Hb Harr.
    destruct (get_stream_packet_loop_delivers (lit "arbitration") 2 (clock w)
                (rep_arbitration c) arrival after eq_refl Harr before (clock w) Hb)
      as [now' Hloop]; [lra | lra |].
    unfold handshake, get_stream_packet.
    cbn [stream_out_put stream_in_q clock]. rewrite Hq, Hloop.
    cbn [wait_value arbitration_status_code].
    destruct (Z.eqb_spec c code_pb2_OK) as [Hc | Hc]; cbn [negb];
      eexists; (split; [reflexivity |]); split; intros Hc';
      try contradiction; cbn; auto.
  - intros Hnone.
    pose proof (get_stream_packet_loop_times_out (lit "arbitration") 2 (clock w)
                  (stream_in_q w) (clock w) Hnone) as Hloop.
    unfold handshake, get_stream_packet.
    cbn [stream_out_put stream_in_q clock].
    destruct (get_stream_packet_loop _ _ _ _ _) as [[o pending] now].
    cbn [fst] in Hloop.
    destruct o; try discriminate Hloop; cbn [wait_value];
      eexists; split; reflexivity.
Qed.

Lemma handshake_arbitration_witness :
  (exists w',
      handshake demo_client
        (world_receiving [((1 # 2)%Q, Some rep_packet);
                          (1%Q, Some (rep_arbitration 7))])
        = (Ok tt, w') /\
      logging w' = [(DEBUG, "Session established, client is 'slave'"%string)] /\
      stdout w'
        = ["You are not master, you only have read access to the server"%string])
  /\
  (exists w',
      handshake demo_client
        (world_receiving [((5 # 2)%Q, Some (rep_arbitration 0))])
        = (Raise (SystemExit 1), w') /\ stdout w' = []).
Proof.
  split.
  - destruct (handshake_arbitration demo_client
                (world_receiving [((1 # 2)%Q, Some rep_packet);
                                  (1%Q, Some (rep_arbitration 7))]))
      as [Hreply _].
    destruct (Hreply [((1 # 2)%Q, Some rep_packet)] 1%Q 7 [])
      as [w' [Hrun [_ Hslave]]].
    + reflexivity.
    + repeat constructor.
      * cbn. discriminate.
      * exists rep_packet. split; reflexivity.
    + cbn. discriminate.
    + exists w'. split; [exact Hrun |]. apply Hslave. discriminate.
  - destruct (handshake_arbitration demo_client
                (world_receiving [((5 # 2)%Q, Some (rep_arbitration 0))]))
      as [_ Hnone].
    apply Hnone. intros t m [[= <- <-] | []] Hle. cbn in Hle.
    exfalso. apply Hle. reflexivity.
Defined.

(** ** Reserved ids *)

Section Commands.

Variable inet_aton : str -> result bytes.
Variable Status_ParseFromString : bytes -> result Status.
Variable stub_GetForwardingPipelineConfig : Z -> result P4Info.
Variable stub_Write : WriteRequest -> result unit.

(** C8: when the group id parsed from the flow of
    add-action-profile-group or delete-action-profile-group is 0, or the
    member id parsed from the flow of add-action-profile-member or
    delete-action-profile-member is 0, the command prints its warning and
    returns: no call is made on the stub (neither the schema is fetched
    nor a write sent) and the record of calls is as it was. *)
Theorem id_zero_is_not_written
    (fuel : nat) (client : P4RuntimeClient) (bridge tbl_name flow : str)
    (w : world) :
  (forall group_id members max_size,
      parse_profile_group flow = Ok (group_id, members, max_size) ->
      py_int group_id = Ok 0 ->
      only_prints "Group ID 0 is un-supported." w
        (p4ctl_add_group Status_ParseFromString
           stub_GetForwardingPipelineConfig stub_Write
           fuel client bridge tbl_name flow w))
  /\
  (forall group_id,
      item (split flow (lit "group_id=")) 1 = Ok group_id ->
      py_int group_id = Ok 0 ->
      only_prints "Group ID 0 is un-supported." w
        (p4ctl_del_group Status_ParseFromString
           stub_GetForwardingPipelineConfig stub_Write
           fuel client bridge tbl_name flow w))
  /\
  (forall action_ action_data mem_id,
      parse_profile_mem inet_aton flow = Ok (action_, action_data, mem_id) ->
      py_int mem_id = Ok 0 ->
      only_prints "Member ID 0 is un-supported." w
        (p4ctl_add_member inet_aton Status_ParseFromString
           stub_GetForwardingPipelineConfig stub_Write
           fuel client bridge tbl_name flow w))
  /\
  (forall mem_id,
      item (split flow (lit "member_id=")) 1 = Ok mem_id ->
      py_int mem_id = Ok 0 ->
      only_prints "Member ID 0 is un-supported." w
        (p4ctl_del_member inet_aton Status_ParseFromString
           stub_GetForwardingPipelineConfig stub_Write
           fuel client bridge tbl_name flow w)).
Proof.
  split; [| split; [| split]].
  - intros group_id members max_size Hparse Hint.
    unfold p4ctl_add_group, bindM, lift. rewrite Hparse. cbn [fst snd].
    rewrite Hint. repeat split.
  - intros group_id Hparse Hint.
    unfold p4ctl_del_group, bindM, lift. rewrite Hparse. cbn [fst snd].
    rewrite Hint. repeat split.
  - intros action_ action_data mem_id Hparse Hint.
    unfold p4ctl_add_member, bindM, lift. rewrite Hparse. cbn [fst snd].
    rewrite Hint. repeat split.
  - intros mem_id Hparse Hint.
    unfold p4ctl_del_member, bindM, lift. rewrite Hparse. cbn [fst snd].
    rewrite Hint. repeat split.
Qed.

End Commands.

Lemma id_zero_is_not_written_witness :
  only_prints "Group ID 0 is un-supported." empty_world
    (p4ctl_add_group (parse_as demo_status)
       demo_GetForwardingPipelineConfig demo_Write
       5 demo_client (lit "br0") (lit "pipe.ap")
       (lit "group_id=0,reference_members=(1,2),max_size=2") empty_world)
  /\
  only_prints "Group ID 0 is un-supported." empty_world
    (p4ctl_del_group (parse_as demo_status)
       demo_GetForwardingPipelineConfig demo_Write
       5 demo_client (lit "br0") (lit "pipe.ap")
       (lit "group_id=0") empty_world)
  /\
  only_prints "Member ID 0 is un-supported." empty_world
    (p4ctl_add_member inet_aton_dotted (parse_as demo_status)
       demo_GetForwardingPipelineConfig demo_Write
       5 demo_client (lit "br0") (lit "pipe.ap")
       (lit "action=pipe.a(10),member_id=0") empty_world)
  /\
  only_prints "Member ID 0 is un-supported." empty_world
    (p4ctl_del_member inet_aton_dotted (parse_as demo_status)
       demo_GetForwardingPipelineConfig demo_Write
       5 demo_client (lit "br0") (lit "pipe.ap")
       (lit "member_id=00") empty_world).
Proof.
  split; [| split; [| split]].
  - eapply (id_zero_is_not_written inet_aton_dotted (parse_as demo_status)
              demo_GetForwardingPipelineConfig demo_Write
              5 demo_client (lit "br0") (lit "pipe.ap")
              (lit "group_id=0,reference_members=(1,2),max_size=2")
              empty_world); reflexivity.
  - eapply (id_zero_is_not_written inet_aton_dotted (parse_as demo_status)
              demo_GetForwardingPipelineConfig demo_Write
              5 demo_client (lit "br0") (lit "pipe.ap")
              (lit "group_id=0") empty_world); reflexivity.
  - eapply (id_zero_is_not_written inet_aton_dotted (parse_as demo_status)
              demo_GetForwardingPipelineConfig demo_Write
              5 demo_client (lit "br0") (lit "pipe.ap")
              (lit "action=pipe.a(10),member_id=0") empty_world); reflexivity.
  - eapply (id_zero_is_not_written inet_aton_dotted (parse_as demo_status)
              demo_GetForwardingPipelineConfig demo_Write
              5 demo_client (lit "br0") (lit "pipe.ap")
              (lit "member_id=00") empty_world); reflexivity.
Defined.

(** The handshake makes no call on the stub. *)
Lemma handshake_wire (self : P4RuntimeClient) (w : world) :
  wire (snd (handshake self w)) = wire w.
Proof.
  unfold handshake, get_stream_packet.
  destruct (get_stream_packet_loop _ _ _ _ _) as [[o pending] now].
  destruct o as [rep | | | e]; cbn [wait_value]; try reflexivity.
  destruct (negb _); reflexivity.
Qed.

(** Under [with_client], a command that makes no call of its own leaves
    the opening of the stream as the only call: no write is sent. *)
Lemma with_client_wire (f : P4RuntimeClient -> M unit) (w : world) :
  (forall client w1, fst (f client w1) <> None /\
                     wire (snd (f client w1)) = wire w1) ->
  wire (snd (with_client f w)) = wire w ++ [rpc_StreamChannel].
Proof.
  intros Hf. unfold with_client, P4RuntimeClient_init.
  pose proof (handshake_wire {| device_id := 1; election_id := (1, 0) |}
                (receiver true (call rpc_StreamChannel w))) as Hh.
  cbv zeta.
  destruct (handshake _ _) as [[[] | e] w1]; cbn [snd] in Hh; [| exact Hh].
  destruct (Hf {| device_id := 1; election_id := (1, 0) |} w1) as [Hret Hw].
  destruct (f _ w1) as [[r |] w2]; [| now contradiction Hret].
  cbn [snd] in *. unfold tear_down. cbn [receiver stream_out_put wire].
  now rewrite Hw, Hh.
Qed.

(** ** The end of the process *)

(** C7, at an input where the code fails: the device accepts the stream,
    sends nothing and keeps the stream open. Whatever the command, the
    handshake gives up at time 2, logs the critical message and raises
    [SystemExit(1)]; the command is not run. The client does not exist
    yet, so [with_client] skips [tear_down]: no close sentinel is put on
    the outbound queue and the receiver thread, which is not a daemon, is
    still running on a stream that nothing ends. The interpreter waits
    for it: the process does not exit. *)
Theorem handshake_timeout_process_stays (f : P4RuntimeClient -> M unit) :
  exists w',
    with_client f empty_world = (Some (Raise (SystemExit 1)), w') /\
    logging w'
    = [(CRITICAL, "Failed to establish session with server"%string)] /\
    stream_out_q w'
    = [Some (req_arbitration
               {| arb_device_id := 1;
                  arb_election_id := {| high := 1; low := 0 |} |})] /\
    stream_in_q w' = [] /\
    (clock w' == 2)%Q /\
    receiver_running w' = true /\
    interpreter_exit (Raise (SystemExit 1) : result unit) w' = never_exits.
Proof. eexists. repeat split. Qed.



(* ===================================================================== *)
(** * Further properties *)
(* ===================================================================== *)

(** ** The codec on bytes and numbers *)

Lemma N_of_byte_bound (b : byte) : (N_of_byte b < 256)%N.
Proof. unfold N_of_byte. apply N_ascii_bounded. Qed.

Lemma byte_of_N_of_byte (b : byte) : byte_of_N (N_of_byte b) = b.
Proof.
  unfold byte_of_N, N_of_byte.
  now rewrite ascii_N_embedding, byte_of_ascii_of_byte.
Qed.

Lemma byte_hex_lower (b : byte) : lower_hex (byte_hex b).
Proof.
  pose proof (N_of_byte_bound b) as Hb. unfold byte_hex.
  repeat constructor.
  - exists (N_of_byte b / 16)%N. split; [| reflexivity].
    apply N.Div0.div_lt_upper_bound. lia.
  - exists (N_of_byte b mod 16)%N. split; [apply N.mod_lt; lia | reflexivity].
Qed.

Lemma b2a_hex_join (bs : bytes) : str_join [] (map byte_hex bs) = b2a_hex bs.
Proof.
  induction bs as [| b [| b' bs] IH]; [reflexivity | reflexivity |].
  change (str_join [] (map byte_hex (b :: b' :: bs)))
    with (byte_hex b ++ [] ++ str_join [] (map byte_hex (b' :: bs))).
  now rewrite IH.
Qed.

Lemma lower_hex_b2a (bs : bytes) : lower_hex (b2a_hex bs).
Proof.
  induction bs as [| b bs IH]; [constructor |].
  change (b2a_hex (b :: bs)) with (byte_hex b ++ b2a_hex bs).
  apply lower_hex_app; [apply byte_hex_lower | exact IH].
Qed.

(** The hex codec decodes what it encoded. *)
Lemma a2b_b2a (bs : bytes) : a2b_hex (b2a_hex bs) = Ok bs.
Proof.
  induction bs as [| b bs IH]; [reflexivity |].
  pose proof (N_of_byte_bound b) as Hb.
  cbn [b2a_hex a2b_hex].
  rewrite !hex_val_nibble
    by (try (apply N.mod_lt; lia); apply N.Div0.div_lt_upper_bound; lia).
  rewrite IH. cbn [bind].
  replace (16 * (N_of_byte b / 16) + N_of_byte b mod 16)%N with (N_of_byte b)
    by (apply N.div_mod; lia).
  now rewrite byte_of_N_of_byte.
Qed.

(** Induction on a text two characters at a time. *)
Lemma pairs_ind (P : str -> Prop) :
  P [] -> (forall c, P [c]) ->
  (forall a b rest, P rest -> P (a :: b :: rest)) ->
  forall s, P s.
Proof.
  intros H0 H1 H2.
  assert (H : forall s, P s /\ forall c, P (c :: s)).
  { induction s as [| a s [IH1 IH2]]; split; auto. }
  intros s. apply H.
Qed.

Lemma a2b_hex_raises (s : str) (e : exn) :
  a2b_hex s = Raise e -> e = BinasciiError.
Proof.
  revert e. induction s as [| c | a b rest IH] using pairs_ind; intros e;
    cbn [a2b_hex]; [discriminate | congruence |].
  destruct (hex_val a), (hex_val b); try congruence.
  destruct (a2b_hex rest) as [bs | e']; cbn [bind]; [discriminate |].
  intros [= <-]. now apply IH.
Qed.

Lemma a2b_hex_ok_hex (s : str) (bs : bytes) :
  a2b_hex s = Ok bs -> forallb is_hex s = true.
Proof.
  revert bs. induction s as [| c | a b rest IH] using pairs_ind; intros bs;
    cbn [a2b_hex]; [reflexivity | discriminate |].
  destruct (hex_val a) eqn:Ea, (hex_val b) eqn:Eb; try discriminate.
  destruct (a2b_hex rest) as [bs' |]; cbn [bind]; [| discriminate].
  intros _. cbn [forallb]. unfold is_hex at 1 2. rewrite Ea, Eb.
  now apply (IH bs').
Qed.

(** The positional value with a carried prefix. *)
Lemma hex_digits_value_acc (s : str) :
  forall acc,
    fold_left
      (fun acc c =>
         16 * acc + match hex_val c with Some d => Z.of_N d | None => 0 end)
      s acc
    = acc * 16 ^ len s + hex_digits_value s.
Proof.
  unfold hex_digits_value, len.
  induction s as [| c s IH]; intros acc; [cbn; lia |].
  cbn [fold_left List.length]. rewrite IH, (IH (16 * 0 + _)).
  rewrite Nat2Z.inj_succ, Z.pow_succ_r by lia. lia.
Qed.

Lemma hex_digits_value_cons (c : ascii) (s : str) :
  hex_digits_value (c :: s)
  = match hex_val c with Some d => Z.of_N d | None => 0 end * 16 ^ len s
    + hex_digits_value s.
Proof.
  unfold hex_digits_value at 1. cbn [fold_left].
  rewrite hex_digits_value_acc. lia.
Qed.

Lemma hex_digits_value_bound (s : str) :
  0 <= hex_digits_value s < 16 ^ len s.
Proof.
  induction s as [| c s IH]; [cbn; lia |].
  rewrite hex_digits_value_cons.
  assert (Hd : 0 <= match hex_val c with Some d => Z.of_N d | None => 0 end < 16).
  { unfold hex_val.
    repeat match goal with
           | |- context [if ?b then _ else _] => destruct b eqn:?
           end; try lia;
      repeat match goal with
             | H : (_ && _)%bool = true |- _ => apply andb_true_iff in H as [? ?]
             | H : (_ <=? _)%N = true |- _ => apply N.leb_le in H
             end; lia. }
  unfold len in *. cbn [List.length].
  rewrite Nat2Z.inj_succ, Z.pow_succ_r by lia.
  assert (0 < 16 ^ Z.of_nat (List.length s)) by (apply Z.pow_pos_nonneg; lia).
  nia.
Qed.

(** Two texts of lower-case hex digits of one length and one value are
    the same text. *)
Lemma lower_hex_value_inj (s : str) :
  lower_hex s ->
  forall t, lower_hex t -> List.length s = List.length t ->
            hex_digits_value s = hex_digits_value t -> s = t.
Proof.
  induction 1 as [| c s [d [Hd ->]] Hs IH]; intros t Ht Hlen Hval.
  - destruct t; [reflexivity | discriminate].
  - destruct Ht as [| c' t [d' [Hd' ->]] Ht]; [discriminate |].
    injection Hlen as Hlen.
    rewrite !hex_digits_value_cons, !hex_val_nibble in Hval by assumption.
    pose proof (hex_digits_value_bound s) as Bs.
    pose proof (hex_digits_value_bound t) as Bt.
    unfold len in *. rewrite <- Hlen in *.
    assert (Z.of_N d = Z.of_N d') by nia.
    assert (d = d') by lia. subst d'.
    f_equal. apply IH; [exact Ht | exact Hlen | lia].
Qed.

(** What [encodeNum] writes for a number in range: the bytes whose hex
    text is the number's hex digits, padded with zeros to two per byte. *)
Lemma encodeNum_in_range (n bitwidth : Z) :
  1 <= bitwidth -> 0 <= n < 2 ^ bitwidth ->
  exists encoded,
    encodeNum n bitwidth = Ok encoded /\
    len encoded = bitwidthToBytes bitwidth /\
    b2a_hex encoded
    = repeat "0"%char
        (Z.to_nat (bitwidthToBytes bitwidth * 2 - len (hex_of_N (Z.to_N n))))
      ++ hex_of_N (Z.to_N n).
Proof.
  intros Hbw Hn.
  pose proof (hex_of_N_fits n bitwidth Hbw Hn) as Hfit.
  pose proof (bitwidthToBytes_pos _ Hbw) as Hpos.
  unfold encodeNum, ge_pow2, format_x.
  replace (0 <=? bitwidth) with true by (symmetry; apply Z.leb_le; lia).
  replace (2 ^ bitwidth <=? n) with false by (symmetry; apply Z.leb_gt; lia).
  replace (n <? 0) with false by (symmetry; apply Z.ltb_ge; lia).
  set (B := bitwidthToBytes bitwidth) in *.
  set (val := repeat "0"%char _ ++ _).
  assert (Hval : lower_hex val).
  { apply lower_hex_app; [apply lower_hex_zeros | apply lower_hex_of_N]. }
  assert (Hlen : List.length val = (2 * Z.to_nat B)%nat).
  { unfold val. rewrite length_app, repeat_length. unfold len in *. lia. }
  destruct (a2b_hex_lower (Z.to_nat B) val Hlen Hval) as [bs [E [L R]]].
  exists bs. repeat split; [exact E | unfold len; lia | exact R].
Qed.

Lemma int_from_bytes_hex (bs : bytes) :
  hex_digits_value (b2a_hex bs) = int_from_bytes_big bs.
Proof.
  unfold hex_digits_value, int_from_bytes_big.
  enough (H : forall acc,
             fold_left
               (fun acc c =>
                  16 * acc
                  + match hex_val c with Some d => Z.of_N d | None => 0 end)
               (b2a_hex bs) acc
             = fold_left (fun acc x => 256 * acc + Z.of_N (N_of_byte x)) bs acc)
    by apply H.
  induction bs as [| b bs IH]; intros acc; [reflexivity |].
  pose proof (N_of_byte_bound b) as Hb.
  cbn [b2a_hex fold_left].
  rewrite !hex_val_nibble
    by (try (apply N.mod_lt; lia); apply N.Div0.div_lt_upper_bound; lia).
  rewrite IH. f_equal.
  pose proof (N.div_mod (N_of_byte b) 16 ltac:(lia)). lia.
Qed.

Lemma b2a_hex_length (bs : bytes) :
  List.length (b2a_hex bs) = (2 * List.length bs)%nat.
Proof. induction bs as [| b bs IH]; cbn [b2a_hex List.length]; lia. Qed.

Lemma decodeNum_from_bytes (bs : bytes) :
  bs <> [] -> decodeNum bs = Ok (int_from_bytes_big bs).
Proof.
  intros Hne. unfold decodeNum.
  rewrite int16_lower_hex, int_from_bytes_hex;
    [reflexivity | apply lower_hex_b2a |].
  destruct bs; [congruence | discriminate].
Qed.

Lemma int_from_bytes_bound (bs : bytes) :
  0 <= int_from_bytes_big bs < 2 ^ (8 * len bs).
Proof.
  rewrite <- int_from_bytes_hex.
  pose proof (hex_digits_value_bound (b2a_hex bs)) as H.
  unfold len in *. rewrite b2a_hex_length in H.
  replace (8 * Z.of_nat (List.length bs))
    with (4 * Z.of_nat (2 * List.length bs)) by lia.
  rewrite Z.pow_mul_r by lia. exact H.
Qed.

(** X1: the display form of an encoded number. For a width of at least
    one bit and a number in range, [decodeToHex] of what [encodeNum]
    returns is ["0x"], then zeros, then the number's lower-case hex digits:
    two digits for each byte of the width. *)
Theorem decodeToHex_encodeNum (n bitwidth : Z) :
  1 <= bitwidth -> 0 <= n < 2 ^ bitwidth ->
  exists encoded,
    encodeNum n bitwidth = Ok encoded /\
    decodeToHex encoded
    = lit "0x"
      ++ repeat "0"%char
           (Z.to_nat (2 * bitwidthToBytes bitwidth - len (format_x n)))
      ++ format_x n /\
    len (decodeToHex encoded) = 2 + 2 * bitwidthToBytes bitwidth.
Proof.
  intros Hbw Hn.
  destruct (encodeNum_in_range n bitwidth Hbw Hn) as [bs [E [L R]]].
  exists bs. split; [exact E |].
  assert (Hfmt : format_x n = hex_of_N (Z.to_N n)).
  { unfold format_x.
    now replace (n <? 0) with false by (symmetry; apply Z.ltb_ge; lia). }
  unfold decodeToHex. rewrite b2a_hex_join. split.
  - rewrite R, Hfmt. do 3 f_equal. lia.
  - unfold len in *. rewrite length_app, b2a_hex_length.
    change (List.length (lit "0x")) with 2%nat. lia.
Qed.

Lemma decodeToHex_encodeNum_witness :
  exists encoded,
    encodeNum 10 12 = Ok encoded /\
    decodeToHex encoded
    = lit "0x"
      ++ repeat "0"%char (Z.to_nat (2 * bitwidthToBytes 12 - len (format_x 10)))
      ++ format_x 10 /\
    len (decodeToHex encoded) = 2 + 2 * bitwidthToBytes 12.
Proof.
  apply (decodeToHex_encodeNum 10 12); [lia | split; [lia | reflexivity]].
Defined.

(** X2: [decodeNum] reads bytes as a big-endian number. On a byte string
    that is not empty it returns what [int.from_bytes(b, "big")] returns,
    a number below [2^(8 * len(b))]; on the empty byte string it raises
    [ValueError]. *)
Theorem decodeNum_big_endian (encoded : bytes) :
  decodeNum [] = Raise ValueError /\
  (encoded <> [] ->
   decodeNum encoded = Ok (int_from_bytes_big encoded) /\
   0 <= int_from_bytes_big encoded < 2 ^ (8 * len encoded)).
Proof.
  split; [reflexivity |]. intros Hne. split.
  - now apply decodeNum_from_bytes.
  - apply int_from_bytes_bound.
Qed.

Lemma decodeNum_big_endian_witness :
  decodeNum [] = Raise ValueError /\
  decodeNum [Byte.x01; Byte.x02] = Ok (int_from_bytes_big [Byte.x01; Byte.x02]) /\
  0 <= int_from_bytes_big [Byte.x01; Byte.x02] < 2 ^ (8 * len [Byte.x01; Byte.x02]).
Proof.
  destruct (decodeNum_big_endian [Byte.x01; Byte.x02]) as [H0 H].
  split; [exact H0 | apply H; discriminate].
Defined.

Lemma bitwidthToBytes_whole (k : Z) : bitwidthToBytes (8 * k) = k.
Proof.
  unfold bitwidthToBytes. replace (8 * k + 7) with (k * 8 + 7) by lia.
  now rewrite Z.div_add_l, Z.add_0_r by lia.
Qed.

(** The bytes of a big-endian number are what [encodeNum] writes for it,
    at eight bits for each byte. *)
Lemma encodeNum_int_from_bytes (bs : bytes) :
  bs <> [] -> encodeNum (int_from_bytes_big bs) (8 * len bs) = Ok bs.
Proof.
  intros Hne.
  pose proof (int_from_bytes_bound bs) as Hb.
  assert (Hlen : 1 <= len bs).
  { unfold len. destruct bs; [congruence | cbn [List.length]; lia]. }
  destruct (encodeNum_in_range (int_from_bytes_big bs) (8 * len bs))
    as [bs' [E [L R]]]; [lia | exact Hb |].
  rewrite E. f_equal. rewrite bitwidthToBytes_whole in L.
  assert (Hhex : b2a_hex bs' = b2a_hex bs).
  { apply lower_hex_value_inj; try apply lower_hex_b2a.
    - rewrite !b2a_hex_length. unfold len in L. lia.
    - rewrite R, hex_digits_value_zeros, hex_of_N_value, int_from_bytes_hex.
      lia. }
  pose proof (a2b_b2a bs') as H1. rewrite Hhex, a2b_b2a in H1. congruence.
Qed.

(** X3: encoding what was decoded. For every byte string that is not
    empty, [decodeNum] returns a number that [encodeNum], at eight bits for
    each byte, encodes to the same byte string. *)
Theorem encodeNum_of_decodeNum (encoded : bytes) :
  encoded <> [] ->
  exists n,
    decodeNum encoded = Ok n /\
    encodeNum n (8 * len encoded) = Ok encoded.
Proof.
  intros Hne. exists (int_from_bytes_big encoded).
  split; [now apply decodeNum_from_bytes | now apply encodeNum_int_from_bytes].
Qed.

Lemma encodeNum_of_decodeNum_witness :
  exists n,
    decodeNum [Byte.x00; Byte.xff] = Ok n /\
    encodeNum n (8 * len [Byte.x00; Byte.xff]) = Ok [Byte.x00; Byte.xff].
Proof. apply (encodeNum_of_decodeNum [Byte.x00; Byte.xff]). discriminate. Defined.

Lemma is_hex_minus : is_hex "-"%char = false.
Proof. reflexivity. Qed.

(** X4: a negative number is never encoded. The range check of
    [encodeNum] lets it pass, ["%x"] writes it with a minus sign, and the
    hex codec refuses the text: the error is [binascii.Error], whatever
    the width. *)
Theorem encodeNum_negative (n bitwidth : Z) :
  n < 0 -> encodeNum n bitwidth = Raise BinasciiError.
Proof.
  intros Hn. unfold encodeNum, ge_pow2, format_x.
  replace (n <? 0) with true by (symmetry; apply Z.ltb_lt; lia).
  assert (Hguard :
            (if 0 <=? bitwidth then 2 ^ bitwidth <=? n
             else if bitwidth <? -1074 then 0 <=? n else 1 <=? n) = false).
  { destruct (Z.leb_spec 0 bitwidth).
    - apply Z.leb_gt. pose proof (Z.pow_pos_nonneg 2 bitwidth). lia.
    - destruct (bitwidth <? -1074); apply Z.leb_gt; lia. }
  rewrite Hguard.
  match goal with |- a2b_hex ?v = _ => destruct (a2b_hex v) as [bs | e] eqn:E end.
  - apply a2b_hex_ok_hex in E. rewrite forallb_app in E.
    apply andb_true_iff in E as [_ E]. cbn [forallb] in E.
    rewrite is_hex_minus in E. discriminate.
  - f_equal. now apply a2b_hex_raises in E.
Qed.

Lemma encodeNum_negative_witness : encodeNum (-1) 8 = Raise BinasciiError.
Proof. apply (encodeNum_negative (-1) 8). lia. Defined.

(** ** [encode] on numbers and addresses *)

Lemma dollar_no_newline (body : str -> bool) (s : str) :
  forallb (fun c => negb (ascii_eqb c "010"%char)) s = true ->
  dollar body s = body s.
Proof.
  intros H. unfold dollar.
  destruct (rev s) as [| c r] eqn:E; [apply orb_false_r |].
  rewrite forallb_forall in H.
  assert (Hc : In c s) by (apply in_rev; rewrite E; now left).
  apply H, negb_true_iff in Hc. rewrite Hc. apply orb_false_r.
Qed.

Lemma digits_no_newline (s : str) :
  forallb is_digit s = true ->
  forallb (fun c => negb (ascii_eqb c "010"%char)) s = true.
Proof.
  rewrite !forallb_forall. intros H c Hc. apply negb_true_iff.
  apply digit_not_char; [now apply H | left; reflexivity].
Qed.

Lemma span_digits_all (s : str) :
  forallb is_digit s = true -> span_digits s = (s, []).
Proof.
  induction s as [| c s IH]; [reflexivity |].
  cbn [forallb span_digits]. intros [Hc Hs]%andb_true_iff.
  now rewrite Hc, (IH Hs).
Qed.

Lemma digits_not_mac (s : str) :
  forallb is_digit s = true -> matchesMac s = false.
Proof.
  intros H. unfold matchesMac.
  rewrite (dollar_no_newline _ s (digits_no_newline s H)).
  destruct s as [| a [| b [| c rest]]]; try reflexivity.
  cbn [forallb] in H.
  apply andb_true_iff in H as [_ H]. apply andb_true_iff in H as [_ H].
  apply andb_true_iff in H as [Hc _].
  cbn [mac_groups].
  rewrite (digit_not_char c ":"%char Hc) by (right; reflexivity).
  now rewrite andb_false_r.
Qed.

Lemma digits_not_ipv4 (s : str) :
  forallb is_digit s = true -> matchesIPv4 s = false.
Proof.
  intros H. unfold matchesIPv4.
  rewrite (dollar_no_newline _ s (digits_no_newline s H)).
  cbn [ip_groups]. rewrite (span_digits_all s H). apply andb_false_r.
Qed.

(** X5: a string of decimal digits is encoded as the number it writes:
    [encode] tries the MAC and the IPv4 pattern first, neither of which
    such a string matches, so [encode(s, bitwidth)] is
    [encode(int(s), bitwidth)]. *)
Theorem encode_decimal_string
    (inet_aton : str -> result bytes) (s : str) (bitwidth : Z) :
  decimal s = true ->
  py_int s = Ok (digits_value s) /\
  encode inet_aton (VStr s) bitwidth
  = encode inet_aton (VInt (digits_value s)) bitwidth.
Proof.
  intros Hd. split; [now apply py_int_digits |].
  assert (Hall : forallb is_digit s = true).
  { unfold decimal in Hd. destruct s; [discriminate | exact Hd]. }
  unfold encode. cbn [bind].
  rewrite (digits_not_mac s Hall), (digits_not_ipv4 s Hall).
  rewrite (decimal_isdigit s Hd), (py_int_digits s Hd). reflexivity.
Qed.

Lemma encode_decimal_string_witness :
  py_int (lit "0042") = Ok (digits_value (lit "0042")) /\
  encode inet_aton_dotted (VStr (lit "0042")) 16
  = encode inet_aton_dotted (VInt (digits_value (lit "0042"))) 16.
Proof.
  apply (encode_decimal_string inet_aton_dotted (lit "0042") 16). reflexivity.
Defined.

(** X6: [encode] on an integer in range. For a width of at least one bit
    and [0 <= n < 2^bitwidth], [encode] returns a byte string of
    [ceil(bitwidth/8)] bytes that [decodeNum] reads back as [n]: its
    closing assertion on the length holds. A list or tuple of the one
    element [n] is encoded as [n]. *)
Theorem encode_int_in_range
    (inet_aton : str -> result bytes) (n bitwidth : Z) :
  1 <= bitwidth -> 0 <= n < 2 ^ bitwidth ->
  exists encoded,
    encode inet_aton (VInt n) bitwidth = Ok (VBytes encoded) /\
    encode inet_aton (VTuple [VInt n]) bitwidth = Ok (VBytes encoded) /\
    encode inet_aton (VList [VInt n]) bitwidth = Ok (VBytes encoded) /\
    len encoded = bitwidthToBytes bitwidth /\
    decodeNum encoded = Ok n.
Proof.
  intros Hbw Hn.
  destruct (encodeNum_in_range n bitwidth Hbw Hn) as [bs [E [L R]]].
  exists bs.
  assert (Henc : encode inet_aton (VInt n) bitwidth = Ok (VBytes bs)).
  { unfold encode. cbn [bind]. rewrite E. cbn [bind py_len].
    rewrite L, Z.eqb_refl. reflexivity. }
  repeat split; try exact Henc; [exact L |].
  unfold decodeNum. rewrite int16_lower_hex; [| apply lower_hex_b2a |].
  - rewrite R, hex_digits_value_zeros, hex_of_N_value. f_equal. lia.
  - pose proof (bitwidthToBytes_pos _ Hbw).
    destruct bs; [unfold len in L; cbn in L; lia | discriminate].
Qed.

Lemma encode_int_in_range_witness :
  exists encoded,
    encode inet_aton_dotted (VInt 300) 9 = Ok (VBytes encoded) /\
    encode inet_aton_dotted (VTuple [VInt 300]) 9 = Ok (VBytes encoded) /\
    encode inet_aton_dotted (VList [VInt 300]) 9 = Ok (VBytes encoded) /\
    len encoded = bitwidthToBytes 9 /\
    decodeNum encoded = Ok 300.
Proof.
  apply (encode_int_in_range inet_aton_dotted 300 9);
    [lia | split; [lia | reflexivity]].
Defined.

(** ** MAC addresses *)

Lemma hex_char_lower (c : ascii) :
  is_hex c = true ->
  exists d, hex_val c = Some d /\ (d < 16)%N /\ nibble_char d = lower_char c /\
            ascii_eqb c ":"%char = false.
Proof.
  destruct c as [[] [] [] [] [] [] [] []]; cbv; try discriminate; intros _;
    eexists; repeat split; reflexivity.
Qed.

(** The codec on the text of [n] groups and a last one. *)
Lemma mac_groups_codec (n : nat) :
  forall m,
    mac_groups n m = true ->
    exists bs,
      encodeMac m = Ok bs /\ List.length bs = S n /\
      decodeMac bs = map lower_char m.
Proof.
  unfold encodeMac, decodeMac.
  induction n as [| n IH]; intros m Hm.
  - destruct m as [| a [| b [| ? ?]]]; try discriminate.
    cbn [mac_groups] in Hm. apply andb_true_iff in Hm as [Ha Hb].
    destruct (hex_char_lower a Ha) as (x & Hx & Lx & Nx & Cx).
    destruct (hex_char_lower b Hb) as (y & Hy & Ly & Ny & Cy).
    exists [byte_of_N (16 * x + y)].
    cbn [filter]. rewrite Cx, Cy. cbn [negb a2b_hex]. rewrite Hx, Hy.
    cbn [bind map str_join List.length]. repeat split.
    unfold byte_hex. destruct (byte_nibbles x y Lx Ly) as [-> ->].
    now rewrite Nx, Ny.
  - destruct m as [| a [| b [| c rest]]]; try discriminate.
    cbn [mac_groups] in Hm.
    apply andb_true_iff in Hm as [Hm Hrest].
    apply andb_true_iff in Hm as [Hm Hc].
    apply andb_true_iff in Hm as [Ha Hb].
    apply Ascii.eqb_eq in Hc. subst c.
    destruct (hex_char_lower a Ha) as (x & Hx & Lx & Nx & Cx).
    destruct (hex_char_lower b Hb) as (y & Hy & Ly & Ny & Cy).
    destruct (IH rest Hrest) as (bs & E & L & D).
    exists (byte_of_N (16 * x + y) :: bs).
    cbn [filter]. rewrite Cx, Cy.
    change (ascii_eqb ":" ":") with true. cbn [negb a2b_hex].
    rewrite Hx, Hy, E. cbn [bind List.length]. repeat split; [lia |].
    destruct bs as [| b0 bs]; [discriminate |].
    change (str_join (lit ":") (map byte_hex (byte_of_N (16 * x + y) :: b0 :: bs)))
      with (byte_hex (byte_of_N (16 * x + y)) ++ lit ":"
            ++ str_join (lit ":") (map byte_hex (b0 :: bs))).
    rewrite D. unfold byte_hex.
    destruct (byte_nibbles x y Lx Ly) as [-> ->].
    now rewrite Nx, Ny.
Qed.

(** X7: a MAC address goes through the codec and comes back in lower
    case. For a text of the form [XX:XX:XX:XX:XX:XX] (hex digits of either
    case), [encodeMac] returns six bytes, and [decodeMac] of them is the
    text with its letters in lower case. *)
Theorem decodeMac_encodeMac (m : str) :
  mac_groups 5 m = true ->
  matchesMac m = true /\
  exists encoded,
    encodeMac m = Ok encoded /\ len encoded = 6 /\
    decodeMac encoded = map lower_char m.
Proof.
  intros Hm. split.
  - unfold matchesMac, dollar. now rewrite Hm.
  - destruct (mac_groups_codec 5 m Hm) as (bs & E & L & D).
    exists bs. repeat split; [exact E | unfold len; lia | exact D].
Qed.

Lemma decodeMac_encodeMac_witness :
  matchesMac (lit "00:1B:44:11:3a:B7") = true /\
  exists encoded,
    encodeMac (lit "00:1B:44:11:3a:B7") = Ok encoded /\ len encoded = 6 /\
    decodeMac encoded = map lower_char (lit "00:1B:44:11:3a:B7").
Proof. apply (decodeMac_encodeMac (lit "00:1B:44:11:3a:B7")). reflexivity. Defined.

Lemma a2b_hex_odd (s : str) (c : ascii) :
  forall bs, a2b_hex s = Ok bs -> a2b_hex (s ++ [c]) = Raise BinasciiError.
Proof.
  induction s as [| x | a b rest IH] using pairs_ind; intros bs;
    cbn [a2b_hex app]; [reflexivity | discriminate |].
  destruct (hex_val a), (hex_val b); try discriminate.
  destruct (a2b_hex rest) as [bs' |] eqn:E; [| discriminate].
  intros _. now rewrite (IH bs').
Qed.

(** X8: the MAC pattern lets a newline at the end pass, and the encoder
    does not. For a text of the form [XX:XX:XX:XX:XX:XX] followed by a
    newline, [matchesMac] is true (the [$] of the pattern matches before a
    final newline), [encodeMac] raises [binascii.Error], and so does
    [encode], for every width. *)
Theorem encodeMac_trailing_newline
    (inet_aton : str -> result bytes) (m : str) (bitwidth : Z) :
  mac_groups 5 m = true ->
  matchesMac (m ++ ["010"%char]) = true /\
  encodeMac (m ++ ["010"%char]) = Raise BinasciiError /\
  encode inet_aton (VStr (m ++ ["010"%char])) bitwidth = Raise BinasciiError.
Proof.
  intros Hm.
  assert (Hmatch : matchesMac (m ++ ["010"%char]) = true).
  { unfold matchesMac, dollar. rewrite rev_app_distr. cbn [rev app].
    rewrite rev_involutive, Hm. apply orb_true_r. }
  assert (Henc : encodeMac (m ++ ["010"%char]) = Raise BinasciiError).
  { destruct (mac_groups_codec 5 m Hm) as (bs & E & _).
    unfold encodeMac in *. rewrite filter_app. cbn [filter].
    change (ascii_eqb "010" ":") with false. cbn [negb].
    now apply (a2b_hex_odd _ _ bs). }
  repeat split; [exact Hmatch | exact Henc |].
  unfold encode. cbn [bind]. now rewrite Hmatch, Henc.
Qed.

Lemma encodeMac_trailing_newline_witness :
  matchesMac (lit "00:1b:44:11:3a:b7" ++ ["010"%char]) = true /\
  encodeMac (lit "00:1b:44:11:3a:b7" ++ ["010"%char]) = Raise BinasciiError /\
  encode inet_aton_dotted (VStr (lit "00:1b:44:11:3a:b7" ++ ["010"%char])) 48
  = Raise BinasciiError.
Proof.
  apply (encodeMac_trailing_newline inet_aton_dotted (lit "00:1b:44:11:3a:b7") 48).
  reflexivity.
Defined.

(** X9: a MAC address as a field value. For a text of the form
    [XX:XX:XX:XX:XX:XX], [encode] returns the six bytes of [encodeMac] when
    the width takes six bytes (41 to 48 bits) and fails its assertion for
    every other width. *)
Theorem encode_mac_width
    (inet_aton : str -> result bytes) (m : str) (bitwidth : Z) :
  mac_groups 5 m = true ->
  exists encoded,
    encodeMac m = Ok encoded /\
    encode inet_aton (VStr m) bitwidth
    = if (41 <=? bitwidth) && (bitwidth <=? 48) then Ok (VBytes encoded)
      else Raise AssertionError.
Proof.
  intros Hm. destruct (mac_groups_codec 5 m Hm) as (bs & E & L & _).
  exists bs. split; [exact E |].
  unfold encode. cbn [bind].
  replace (matchesMac m) with true
    by (unfold matchesMac, dollar; now rewrite Hm).
  rewrite E. cbn [bind py_len]. unfold len. rewrite L.
  unfold bitwidthToBytes.
  pose proof (Z.div_mod (bitwidth + 7) 8 ltac:(lia)) as Hdm.
  pose proof (Z.mod_pos_bound (bitwidth + 7) 8 ltac:(lia)) as Hmb.
  destruct (Z.eqb_spec (Z.of_nat 6) ((bitwidth + 7) / 8)) as [H | H];
    destruct (Z.leb_spec 41 bitwidth); destruct (Z.leb_spec bitwidth 48);
    cbn [andb py_assert bind]; try reflexivity; exfalso; lia.
Qed.

Lemma encode_mac_width_witness :
  exists encoded,
    encodeMac (lit "00:1b:44:11:3a:b7") = Ok encoded /\
    encode inet_aton_dotted (VStr (lit "00:1b:44:11:3a:b7")) 32
    = if (41 <=? 32) && (32 <=? 48) then Ok (VBytes encoded)
      else Raise AssertionError.
Proof.
  apply (encode_mac_width inet_aton_dotted (lit "00:1b:44:11:3a:b7") 32).
  reflexivity.
Defined.

(** ** The IPv4 pattern *)

Lemma span_digits_spec (s : str) :
  forall ds r,
    span_digits s = (ds, r) ->
    s = ds ++ r /\ forallb is_digit ds = true.
Proof.
  induction s as [| c s IH]; intros ds r; cbn [span_digits].
  - intros [= <- <-]. split; reflexivity.
  - destruct (is_digit c) eqn:Hc.
    + destruct (span_digits s) as [ds' r'].
      intros [= <- <-]. destruct (IH ds' r' eq_refl) as [-> H].
      split; [reflexivity | cbn [forallb]; now rewrite Hc].
    + intros [= <- <-]. split; reflexivity.
Qed.

Lemma span_digits_dot (ds rest : str) :
  forallb is_digit ds = true ->
  span_digits (ds ++ "."%char :: rest) = (ds, "."%char :: rest).
Proof.
  induction ds as [| c ds IH]; [reflexivity |].
  cbn [forallb app span_digits]. intros [Hc Hs]%andb_true_iff.
  now rewrite Hc, (IH Hs).
Qed.

Lemma one_to_three_spec (ds : str) :
  one_to_three ds = true <-> (1 <= List.length ds <= 3)%nat.
Proof.
  unfold one_to_three. rewrite andb_true_iff, !Nat.leb_le. tauto.
Qed.

(** The texts that the groups of the pattern match: [n] octets with a dot
    after each, then a last octet. *)
Lemma ip_groups_spec (n : nat) :
  forall s,
    ip_groups n s = true <->
    exists parts,
      List.length parts = S n /\ Forall octet_text parts /\
      s = str_join (lit ".") parts.
Proof.
  induction n as [| n IH]; intros s; cbn [ip_groups].
  - destruct (span_digits s) as [ds r] eqn:E. split.
    + destruct (span_digits_spec s ds r E) as [-> Hds].
      intros [H1 Hr]%andb_true_iff. destruct r; [| discriminate].
      exists [ds]. rewrite app_nil_r. repeat split.
      constructor; [| constructor]. split; [exact Hds |].
      now apply one_to_three_spec.
    + intros (parts & L & F & Hs).
      destruct parts as [| p [| ? ?]]; try discriminate.
      cbn [str_join] in Hs. inversion F as [| ? ? [Hp Hl] _].
      rewrite Hs, (span_digits_all p Hp) in E. injection E as <- <-.
      apply andb_true_iff. split; [now apply one_to_three_spec | reflexivity].
  - destruct (span_digits s) as [ds r] eqn:E. split.
    + destruct (span_digits_spec s ds r E) as [-> Hds].
      intros [H1 Hr]%andb_true_iff. destruct r as [| c r]; [discriminate |].
      apply andb_true_iff in Hr as [Hc Hr]. apply Ascii.eqb_eq in Hc. subst c.
      apply IH in Hr as (parts & L & F & ->).
      exists (ds :: parts). repeat split.
      * cbn [List.length]. lia.
      * constructor; [| exact F]. split; [exact Hds |].
        now apply one_to_three_spec.
      * destruct parts; [discriminate | reflexivity].
    + intros (parts & L & F & Hs).
      destruct parts as [| p [| q parts]]; try discriminate.
      change (str_join (lit ".") (p :: q :: parts))
        with (p ++ "."%char :: str_join (lit ".") (q :: parts)) in Hs.
      inversion F as [| ? ? [Hp Hl] F'].
      rewrite Hs, (span_digits_dot p _ Hp) in E. injection E as <- <-.
      apply andb_true_iff. split; [now apply one_to_three_spec |].
      apply andb_true_iff. split; [reflexivity |].
      apply IH. exists (q :: parts). repeat split; [| exact F'].
      cbn [List.length] in *. lia.
Qed.

(** X10: what [matchesIPv4] accepts. A text matches exactly when it is
    four runs of one to three decimal digits joined by dots, with or
    without a newline at the end; the pattern puts no bound on the value of
    an octet. *)
Theorem matchesIPv4_spec (s : str) :
  matchesIPv4 s = true <->
  exists a b c d,
    octet_text a /\ octet_text b /\ octet_text c /\ octet_text d /\
    let quad := a ++ lit "." ++ b ++ lit "." ++ c ++ lit "." ++ d in
    s = quad \/ s = quad ++ ["010"%char].
Proof.
  assert (Hquad : forall t,
             ip_groups 3 t = true <->
             exists a b c d,
               octet_text a /\ octet_text b /\ octet_text c /\ octet_text d /\
               t = a ++ lit "." ++ b ++ lit "." ++ c ++ lit "." ++ d).
  { intros t. rewrite ip_groups_spec. split.
    - intros (parts & L & F & ->).
      destruct parts as [| a [| b [| c [| d [| ? ?]]]]]; try discriminate.
      inversion F as [| ? ? Ha F1]; subst. inversion F1 as [| ? ? Hb F2]; subst.
      inversion F2 as [| ? ? Hc F3]; subst. inversion F3 as [| ? ? Hd _]; subst.
      exists a, b, c, d. exact (conj Ha (conj Hb (conj Hc (conj Hd eq_refl)))).
    - intros (a & b & c & d & Ha & Hb & Hc & Hd & ->).
      exists [a; b; c; d]. split; [reflexivity |]. split; [| reflexivity].
      exact (Forall_cons _ Ha (Forall_cons _ Hb (Forall_cons _ Hc
               (Forall_cons _ Hd (Forall_nil _))))). }
  unfold matchesIPv4, dollar. rewrite orb_true_iff. split.
  - intros [H | H].
    + apply Hquad in H as (a & b & c & d & Ha & Hb & Hc & Hd & ->).
      exists a, b, c, d.
      exact (conj Ha (conj Hb (conj Hc (conj Hd (or_introl eq_refl))))).
    + destruct (rev s) as [| x r] eqn:E; [discriminate |].
      apply andb_true_iff in H as [Hx H]. apply Ascii.eqb_eq in Hx. subst x.
      apply Hquad in H as (a & b & c & d & Ha & Hb & Hc & Hd & Hr).
      exists a, b, c, d.
      refine (conj Ha (conj Hb (conj Hc (conj Hd (or_intror _))))).
      rewrite <- Hr, <- (rev_involutive s), E. reflexivity.
  - intros (a & b & c & d & Ha & Hb & Hc & Hd & Hs). cbv zeta in Hs.
    destruct Hs as [-> | ->].
    + left. apply Hquad. exists a, b, c, d.
      exact (conj Ha (conj Hb (conj Hc (conj Hd eq_refl)))).
    + right. rewrite rev_app_distr. cbn [rev app].
      change (ascii_eqb "010" "010") with true. cbn [andb].
      rewrite rev_involutive.
      apply Hquad. exists a, b, c, d.
      exact (conj Ha (conj Hb (conj Hc (conj Hd eq_refl)))).
Qed.

(** ** Lookups in any schema *)

Lemma carries_label (x : entity) (name : str) :
  (str_eqb (pre_name (preamble x)) name
   || str_eqb (pre_alias (preamble x)) name) = true
  <-> In name (labels x).
Proof.
  rewrite orb_true_iff, !str_eqb_eq. unfold labels. cbn [In]. tauto.
Qed.

(** The scan by name stops at the first entity that carries the name. *)
Lemma get_scan_first (name : str) (objs : list entity) (o : entity) :
  name <> [] ->
  get_scan objs (Some name) None = Some o ->
  exists before after,
    objs = before ++ o :: after /\
    Forall (fun x => ~ In name (labels x)) before /\
    In name (labels o).
Proof.
  intros Hne. destruct name as [| c n]; [congruence |].
  induction objs as [| x rest IH]; cbn [get_scan truthy_str eq_opt_str];
    [discriminate |].
  destruct (str_eqb (pre_name (preamble x)) (c :: n)
            || str_eqb (pre_alias (preamble x)) (c :: n)) eqn:E.
  - intros [= <-]. exists [], rest. repeat split; [constructor |].
    now apply carries_label.
  - intros H. destruct (IH H) as (before & after & -> & Hb & Ho).
    exists (x :: before), after. repeat split; [| exact Ho].
    constructor; [| exact Hb]. intros Hx. apply carries_label in Hx. congruence.
Qed.

Lemma get_scan_none (name : str) (objs : list entity) :
  name <> [] ->
  get_scan objs (Some name) None = None ->
  Forall (fun x => ~ In name (labels x)) objs.
Proof.
  intros Hne. destruct name as [| c n]; [congruence |].
  induction objs as [| x rest IH]; cbn [get_scan truthy_str eq_opt_str];
    [constructor |].
  destruct (str_eqb (pre_name (preamble x)) (c :: n)
            || str_eqb (pre_alias (preamble x)) (c :: n)) eqn:E; [discriminate |].
  intros H. constructor; [| now apply IH].
  intros Hx. apply carries_label in Hx. congruence.
Qed.

Lemma get_scan_empty_name (objs : list entity) :
  get_scan objs (Some []) None = None.
Proof. induction objs as [| x rest IH]; [reflexivity | exact IH]. Qed.

(** X11: the empty name finds nothing. [get] tests [if name:], so for the
    empty string it compares ids with [None]: [get_id(kind, "")] raises
    [AttributeError] in every schema, also when an entity has an empty
    alias or name. *)
Theorem get_id_empty_name (p4info : P4Info) (kind : entity_type) :
  get p4info kind (Some []) None = Raise AttributeError /\
  get_id p4info kind [] = Raise AttributeError.
Proof.
  unfold get_id, get. rewrite get_scan_empty_name. split; reflexivity.
Qed.

(** X12: the first match wins. For a name that is not empty, [get_id]
    returns the id of the first entity of the kind, in schema order, whose
    name or alias is that name; it raises [AttributeError], and nothing
    else, when no entity carries the name. *)
Theorem get_id_first_match
    (p4info : P4Info) (kind : entity_type) (name : str) :
  name <> [] ->
  (forall i, get_id p4info kind name = Ok i ->
     exists before o after,
       getattr p4info kind = before ++ o :: after /\
       Forall (fun x => ~ In name (labels x)) before /\
       In name (labels o) /\ pre_id (preamble o) = i) /\
  (forall e, get_id p4info kind name = Raise e ->
     e = AttributeError /\
     Forall (fun x => ~ In name (labels x)) (getattr p4info kind)).
Proof.
  intros Hne. unfold get_id, get.
  destruct (get_scan (getattr p4info kind) (Some name) None) as [o |] eqn:E;
    cbn [bind]; split; try discriminate.
  - intros i [= <-].
    destruct (get_scan_first name _ o Hne E) as (before & after & H1 & H2 & H3).
    exists before, o, after. repeat split; assumption.
  - intros e [= <-]. split; [reflexivity |]. now apply get_scan_none.
Qed.

Lemma get_id_first_match_witness :
  (forall i, get_id colliding_p4info Tables (lit "b") = Ok i ->
     exists before o after,
       getattr colliding_p4info Tables = before ++ o :: after /\
       Forall (fun x => ~ In (lit "b") (labels x)) before /\
       In (lit "b") (labels o) /\ pre_id (preamble o) = i) /\
  (forall e, get_id colliding_p4info Tables (lit "b") = Raise e ->
     e = AttributeError /\
     Forall (fun x => ~ In (lit "b") (labels x)) (getattr colliding_p4info Tables)).
Proof. apply (get_id_first_match colliding_p4info Tables (lit "b")). discriminate. Defined.

(** ** Match fields *)

Lemma scan_match_fields_by_name (mfs : list MatchField) (name : str) :
  match scan_match_fields mfs (Some name) None with
  | Some mf => In mf mfs /\ mf_name mf = name
  | None => forall mf, In mf mfs -> mf_name mf <> name
  end.
Proof.
  induction mfs as [| x rest IH]; cbn [scan_match_fields]; [intros ? [] |].
  destruct (str_eqb (mf_name x) name) eqn:E.
  - apply str_eqb_eq in E. split; [now left | exact E].
  - destruct (scan_match_fields rest (Some name) None) as [mf |].
    + destruct IH. split; [now right | assumption].
    + intros mf [<- | Hin]; [| now apply IH].
      intros Heq. apply str_eqb_eq in Heq. congruence.
Qed.

Lemma scan_match_fields_by_id (mfs : list MatchField) (id : Z) :
  match scan_match_fields mfs None (Some id) with
  | Some mf => In mf mfs /\ mf_id mf = id
  | None => forall mf, In mf mfs -> mf_id mf <> id
  end.
Proof.
  induction mfs as [| x rest IH]; cbn [scan_match_fields]; [intros ? [] |].
  destruct (Z.eqb_spec (mf_id x) id) as [E | E].
  - split; [now left | exact E].
  - destruct (scan_match_fields rest None (Some id)) as [mf |].
    + destruct IH. split; [now right | assumption].
    + intros mf [<- | Hin]; [exact E | now apply IH].
Qed.

(** The loop over the tables, for a test [good] on fields that the inner
    scan decides. *)
Lemma get_match_field_loop_spec
    (name : option str) (id : option Z) (good : MatchField -> Prop)
    (table_name : str) :
  (forall mfs,
      match scan_match_fields mfs name id with
      | Some mf => In mf mfs /\ good mf
      | None => forall mf, In mf mfs -> ~ good mf
      end) ->
  forall ts,
    match get_match_field_loop ts table_name name id with
    | Some mf =>
        good mf /\
        exists t, In t ts /\ pre_name (table_preamble t) = table_name /\
                  In mf (match_fields t)
    | None =>
        forall t mf, In t ts -> pre_name (table_preamble t) = table_name ->
                     In mf (match_fields t) -> ~ good mf
    end.
Proof.
  intros Hscan. induction ts as [| t rest IH]; cbn [get_match_field_loop].
  - intros ? ? [].
  - destruct (str_eqb (pre_name (table_preamble t)) table_name) eqn:E.
    + apply str_eqb_eq in E.
      pose proof (Hscan (match_fields t)) as Ht.
      destruct (scan_match_fields (match_fields t) name id) as [mf |].
      * destruct Ht. split; [assumption |]. exists t. repeat split; auto.
        now left.
      * destruct (get_match_field_loop rest table_name name id) as [mf |].
        -- destruct IH as [Hg (t' & Hin & Hn & Hm)]. split; [exact Hg |].
           exists t'. repeat split; auto. now right.
        -- intros t' mf [<- | Hin] Hn Hm; [now apply Ht | now apply (IH t')].
    + destruct (get_match_field_loop rest table_name name id) as [mf |].
      * destruct IH as [Hg (t' & Hin & Hn & Hm)]. split; [exact Hg |].
        exists t'. repeat split; auto. now right.
      * intros t' mf [<- | Hin] Hn Hm; [| now apply (IH t')].
        apply str_eqb_eq in Hn. congruence.
Qed.

(** X13: [get_match_field] finds a field of a table of that canonical
    name, or raises [AttributeError]. By name: the field returned has the
    name asked for and belongs to a table whose canonical name is
    [table_name]; the lookup fails exactly when no table of that name has
    such a field. By id: the same, with the id. *)
Theorem get_match_field_spec
    (p4info : P4Info) (table_name name : str) (id : Z) :
  match get_match_field p4info table_name (Some name) None with
  | Ok mf => mf_name mf = name /\ field_of_table p4info table_name mf
  | Raise e =>
      e = AttributeError /\
      forall mf, field_of_table p4info table_name mf -> mf_name mf <> name
  end /\
  match get_match_field p4info table_name None (Some id) with
  | Ok mf => mf_id mf = id /\ field_of_table p4info table_name mf
  | Raise e =>
      e = AttributeError /\
      forall mf, field_of_table p4info table_name mf -> mf_id mf <> id
  end.
Proof.
  unfold get_match_field, field_of_table. split.
  - pose proof (get_match_field_loop_spec (Some name) None
                  (fun mf => mf_name mf = name) table_name
                  (fun mfs => scan_match_fields_by_name mfs name)
                  (tables p4info)) as H.
    destruct (get_match_field_loop _ _ _ _) as [mf |]; [exact H |].
    split; [reflexivity |]. intros mf (t & Hin & Hn & Hm). now apply (H t).
  - pose proof (get_match_field_loop_spec None (Some id)
                  (fun mf => mf_id mf = id) table_name
                  (fun mfs => scan_match_fields_by_id mfs id)
                  (tables p4info)) as H.
    destruct (get_match_field_loop _ _ _ _) as [mf |]; [exact H |].
    split; [reflexivity |]. intros mf (t & Hin & Hn & Hm). now apply (H t).
Qed.

Lemma get_match_field_loop_no_table
    (ts : list Table) (table_name : str) (name : option str) (id : option Z) :
  (forall t, In t ts -> pre_name (table_preamble t) <> table_name) ->
  get_match_field_loop ts table_name name id = None.
Proof.
  induction ts as [| t rest IH]; intros H; [reflexivity |].
  cbn [get_match_field_loop].
  destruct (str_eqb (pre_name (table_preamble t)) table_name) eqn:E.
  - apply str_eqb_eq in E. exfalso. apply (H t); [now left | exact E].
  - apply IH. intros t' Hin. apply H. now right.
Qed.

(** X14: a match key needs the canonical table name. [get_tables_id]
    resolves an alias, [get_match_field] compares canonical names only: when
    no table has [table_name] as its canonical name, [buildTableEntry] with
    a match key that is not empty and a priority that is absent or fits
    its [int32] field raises [AttributeError], also when [table_name] is
    the alias of a table. (The priority is assigned before the match key
    is read: one that does not fit raises [ValueError] there.) *)
Theorem buildTableEntry_alias_with_match
    (inet_aton : str -> result bytes) (p4info : P4Info) (table_name : str)
    (match_fields_ : option (list (str * pyval))) (default_action : bool)
    (action_name : option str) (action_params : option (list (str * pyval)))
    (priority_ : option Z) (group_id member_id_ : Z) :
  (forall t, In t (tables p4info) ->
             pre_name (table_preamble t) <> table_name) ->
  truthy_dict match_fields_ = true ->
  (forall p, priority_ = Some p -> - 2 ^ 31 <= p < 2 ^ 31) ->
  buildTableEntry inet_aton p4info table_name match_fields_ default_action
    action_name action_params priority_ group_id member_id_
  = Raise AttributeError.
Proof.
  intros Hno Hmf Hprio. unfold buildTableEntry.
  assert (Hid : get_tables_id p4info table_name = Raise AttributeError
                \/ exists tid, get_tables_id p4info table_name = Ok tid).
  { unfold get_tables_id, get_id, get.
    destruct (get_scan _ _ _); cbn [bind]; eauto. }
  destruct Hid as [-> | [tid ->]]; [reflexivity |]. cbn [bind].
  assert (Hp : exists prio,
             match priority_ with
             | Some p => int32_field p
             | None => Ok 0
             end = Ok prio).
  { destruct priority_ as [p |]; [| now exists 0].
    exists p. apply int32_field_ok. now apply Hprio. }
  destruct Hp as [prio ->]. cbn [bind].
  rewrite Hmf.
  destruct match_fields_ as [[| [k v] rest] |]; try discriminate.
  cbn [items comprehension]. unfold get_match_field_pb at 1.
  unfold get_match_field.
  now rewrite (get_match_field_loop_no_table _ _ _ _ Hno).
Qed.

Lemma buildTableEntry_alias_with_match_witness :
  get_tables_id demo_p4info (lit "t") = Ok 1 /\
  buildTableEntry inet_aton_dotted demo_p4info (lit "t")
    (Some [(lit "f", VStr (lit "5"))]) false None None (Some 10) 0 0
  = Raise AttributeError.
Proof.
  split; [reflexivity |].
  apply (buildTableEntry_alias_with_match inet_aton_dotted demo_p4info (lit "t")
           (Some [(lit "f", VStr (lit "5"))]) false None None (Some 10) 0 0).
  - intros t [<- | []]. discriminate.
  - reflexivity.
  - intros p [= <-]. lia.
Defined.

(** ** The decoder on batches without an OK record *)

Lemma expected_errors_all_failed (l : list Any) :
  Forall failed_record l ->
  forall i,
    map fst (expected_errors i l) = seq i (List.length l) /\
    map (fun p => Any_p4_Error (snd p)) (expected_errors i l) = l.
Proof.
  induction 1 as [| a l [e [-> Hne]] _ IH]; intros i; [split; reflexivity |].
  cbn [expected_errors]. apply Z.eqb_neq in Hne. rewrite Hne.
  destruct (IH (S i)) as [H1 H2].
  cbn [map fst snd List.length seq]. now rewrite H1, H2.
Qed.

(** The decoder stops at a record that does not unpack, when the records
    before it are failed ones. *)
Lemma collect_errors_unpack_fails (g : RpcError) (url : str) (after : list Any)
    (failed : list Any) :
  Forall failed_record failed ->
  forall (before : list Any) (acc : list (nat * P4Error)) (fuel : nat),
    (List.length failed < fuel)%nat ->
    collect_errors fuel
      {| it_grpc_error := g;
         errors := before ++ failed ++ Any_other url :: after;
         idx := List.length before |} acc
    = Some (Raise (P4RuntimeErrorFormatException
                     "Cannot convert Any message to p4.Error")).
Proof.
  induction 1 as [| a failed [e [-> Hne]] _ IH]; intros before acc fuel Hfuel.
  - destruct fuel as [| fuel]; [simpl in Hfuel; lia |].
    cbn [collect_errors next errors idx app].
    rewrite nth_error_app2, Nat.sub_diag by lia. reflexivity.
  - destruct fuel as [| fuel]; [simpl in Hfuel; lia |].
    cbn [collect_errors next errors idx app].
    rewrite nth_error_app2, Nat.sub_diag by lia. cbn [nth_error Unpack].
    apply Z.eqb_neq in Hne. rewrite Hne.
    unfold advance. cbn [it_grpc_error errors idx].
    specialize (IH (before ++ [Any_p4_Error e])
                  (acc ++ [(List.length before, e)]) fuel).
    rewrite <- app_assoc, length_app in IH. cbn [List.length app] in IH.
    rewrite Nat.add_1_r in IH. apply IH. simpl in Hfuel. lia.
Qed.

Section Decoder.

Variable parse : bytes -> result Status.
Variable grpc_error : RpcError.
Variables (before after : list (str * bytes)) (payload : bytes) (st : Status).

Hypothesis code_unknown : rpc_code grpc_error = StatusCode_UNKNOWN.
Hypothesis metadata :
  trailing_metadata grpc_error = before ++ (details_key, payload) :: after.
Hypothesis first_entry : Forall (fun meta => fst meta <> details_key) before.
Hypothesis parsed : parse payload = Ok st.

Lemma iterator_init_ok :
  details st <> [] ->
  P4RuntimeErrorIterator_init parse grpc_error
  = Ok {| it_grpc_error := grpc_error; errors := details st; idx := 0 |}.
Proof.
  intros Hne. unfold P4RuntimeErrorIterator_init.
  rewrite code_unknown, metadata.
  cbn [py_assert Z.eqb StatusCode_UNKNOWN Pos.eqb bind].
  rewrite (scan_metadata_first parse before after payload first_entry), parsed.
  cbn [bind]. destruct (details st); [congruence | reflexivity].
Qed.

(** X15: a batch in which every update failed. When the status code is
    "unknown", the first details entry of the metadata parses to a status,
    and every record of its details unpacks with a code other than OK, the
    write decorator raises [P4RuntimeWriteException] with one pair for each
    record, in batch order: the indices are [0, 1, ...] and the records
    are the details. *)
Theorem write_error_lists_every_failure (fuel : nat) :
  details st <> [] ->
  Forall failed_record (details st) ->
  (List.length (details st) < fuel)%nat ->
  exists errs,
    parse_p4runtime_write_error parse fuel
      (Raise (grpc_RpcError grpc_error) : result unit)
    = Some (Raise (P4RuntimeWriteException errs)) /\
    map fst errs = seq 0 (List.length (details st)) /\
    map (fun p => Any_p4_Error (snd p)) errs = details st.
Proof.
  intros Hne Hall Hfuel. exists (expected_errors 0 (details st)).
  split; [| now apply expected_errors_all_failed].
  unfold parse_p4runtime_write_error, P4RuntimeWriteException_init.
  rewrite (iterator_init_ok Hne), code_unknown.
  cbn [py_assert Z.eqb StatusCode_UNKNOWN Pos.eqb negb].
  pose proof (collect_errors_all_failed grpc_error (details st) Hall [] []
                fuel Hfuel) as Hc.
  cbn [app List.length] in Hc. now rewrite Hc.
Qed.

(** X16: a record of another type spoils the batch. When the records
    before it are failed ones, a details entry that does not unpack as a
    [p4.Error] makes the constructor of [P4RuntimeWriteException] raise
    [P4RuntimeErrorFormatException]: the pairs collected so far are
    discarded. *)
Theorem write_error_unpack_failure
    (fuel : nat) (failed rest : list Any) (url : str) :
  details st = failed ++ Any_other url :: rest ->
  Forall failed_record failed ->
  (List.length failed < fuel)%nat ->
  P4RuntimeWriteException_init parse fuel grpc_error
  = Some (Raise (P4RuntimeErrorFormatException
                   "Cannot convert Any message to p4.Error")) /\
  parse_p4runtime_write_error parse fuel
    (Raise (grpc_RpcError grpc_error) : result unit)
  = Some (Raise (P4RuntimeErrorFormatException
                   "Cannot convert Any message to p4.Error")).
Proof.
  intros Hd Hall Hfuel.
  assert (Hne : details st <> []) by (rewrite Hd; now destruct failed).
  assert (Hinit :
            P4RuntimeWriteException_init parse fuel grpc_error
            = Some (Raise (P4RuntimeErrorFormatException
                             "Cannot convert Any message to p4.Error"))).
  { unfold P4RuntimeWriteException_init.
    rewrite (iterator_init_ok Hne), code_unknown, Hd.
    cbn [py_assert Z.eqb StatusCode_UNKNOWN Pos.eqb].
    exact (collect_errors_unpack_fails grpc_error url rest failed Hall [] [] fuel Hfuel). }
  split; [exact Hinit |].
  unfold parse_p4runtime_write_error. rewrite Hinit, code_unknown. reflexivity.
Qed.

End Decoder.

Lemma demo_first_entry :
  Forall (fun meta : str * bytes => fst meta <> details_key)
    [(lit "content-type", [])].
Proof. constructor; [discriminate | constructor]. Qed.

Lemma write_error_lists_every_failure_witness :
  exists errs,
    parse_p4runtime_write_error (parse_as failed_status) 5
      (Raise (grpc_RpcError demo_grpc_error) : result unit)
    = Some (Raise (P4RuntimeWriteException errs)) /\
    map fst errs = seq 0 (List.length (details failed_status)) /\
    map (fun p => Any_p4_Error (snd p)) errs = details failed_status.
Proof.
  apply (write_error_lists_every_failure (parse_as failed_status)
           demo_grpc_error [(lit "content-type", [])] [] [Byte.x08]
           failed_status eq_refl eq_refl demo_first_entry eq_refl 5).
  - discriminate.
  - repeat constructor; eexists; (split; [reflexivity | discriminate]).
  - cbn. lia.
Defined.

Lemma write_error_unpack_failure_witness :
  P4RuntimeWriteException_init (parse_as mixed_status) 5 demo_grpc_error
  = Some (Raise (P4RuntimeErrorFormatException
                   "Cannot convert Any message to p4.Error")) /\
  parse_p4runtime_write_error (parse_as mixed_status) 5
    (Raise (grpc_RpcError demo_grpc_error) : result unit)
  = Some (Raise (P4RuntimeErrorFormatException
                   "Cannot convert Any message to p4.Error")).
Proof.
  apply (write_error_unpack_failure (parse_as mixed_status)
           demo_grpc_error [(lit "content-type", [])] [] [Byte.x08]
           mixed_status eq_refl eq_refl demo_first_entry eq_refl 5
           [Any_p4_Error error_not_found] []
           (lit "type.googleapis.com/google.rpc.DebugInfo")).
  - reflexivity.
  - repeat constructor; eexists; (split; [reflexivity | discriminate]).
  - cbn. lia.
Defined.

(** ** Waiting on the inbound stream *)

Lemma Qmax_ge (a b : Q) : (a <= Qmax a b)%Q.
Proof.
  unfold Qmax. destruct (Qle_bool a b) eqn:E; [| lra].
  now apply Qle_bool_iff in E.
Qed.

(** What one call of the loop does to the queue and the clock, and what
    it may return. *)
Lemma get_stream_packet_loop_bounds (type_ : str) (timeout start : Q) :
  forall pending now,
    (start <= now)%Q -> (now <= start + timeout)%Q ->
    let '(o, pending', now') :=
      get_stream_packet_loop type_ timeout start pending now in
    (now <= now')%Q /\ (now' <= start + timeout)%Q /\
    (exists consumed, pending = consumed ++ pending') /\
    (forall m, o = wait_msg m ->
       HasField m type_ = Ok true /\
       exists t, In (t, Some m) pending /\ (t <= start + timeout)%Q).
Proof.
  induction pending as [| [t msg] pending IH]; intros now H1 H2;
    cbn [get_stream_packet_loop].
  - destruct (Qlt_bool _ 0);
      (split; [lra | split; [lra | split;
         [now exists [] | intros ? ?; discriminate]]]).
  - destruct (Qlt_bool _ 0);
      [split; [lra | split; [lra | split;
         [now exists [] | intros ? ?; discriminate]]] |].
    destruct (Qle_bool t _) eqn:E;
      [| split; [lra | split; [lra | split;
           [now exists [] | intros ? ?; discriminate]]]].
    apply Qle_bool_iff in E.
    assert (Ht : (t <= start + timeout)%Q) by lra.
    destruct (Qmax_bounds now t start (start + timeout)%Q H1 H2 Ht) as [B1 B2].
    pose proof (Qmax_ge now t) as B0.
    destruct msg as [m |].
    + destruct (HasField m type_) as [[|] | e] eqn:Hf; cbn [negb].
      * split; [exact B0 | split; [exact B2 | split]].
        -- now exists [(t, Some m)].
        -- intros m0 [= <-]. split; [exact Hf |].
           exists t. split; [now left | exact Ht].
      * specialize (IH (Qmax now t) B1 B2).
        destruct (get_stream_packet_loop type_ timeout start pending (Qmax now t))
          as [[msg' pending'] now'].
        destruct IH as (I1 & I2 & [consumed ->] & I4).
        split; [lra | split; [exact I2 | split]].
        -- now exists ((t, Some m) :: consumed).
        -- intros m0 Hm0. destruct (I4 m0 Hm0) as [Hf0 [t' [Hin Ht']]].
           split; [exact Hf0 |]. exists t'. split; [now right | exact Ht'].
      * split; [exact B0 | split; [exact B2 | split]].
        -- now exists [(t, Some m)].
        -- intros ? ?; discriminate.
    + split; [exact B0 | split; [exact B2 | split]].
      * now exists [(t, None)].
      * intros ? ?; discriminate.
Qed.

(** X17: [get_stream_packet] waits no longer than its timeout and returns
    only what was asked for. For a timeout that is not negative, the clock
    after the call is between the clock before it and the deadline; the
    queue after the call is a suffix of the queue before it; nothing is
    printed or sent; and a message that is returned has the requested field
    and arrived by the deadline. (All but the last also hold when the call
    ends with the [ValueError] of [HasField].) *)
Theorem get_stream_packet_bounded (type_ : str) (timeout : Q) (w : world) :
  (0 <= timeout)%Q ->
  let '(msg, w') := get_stream_packet type_ timeout w in
  (clock w <= clock w')%Q /\ (clock w' <= clock w + timeout)%Q /\
  (exists consumed, stream_in_q w = consumed ++ stream_in_q w') /\
  stdout w' = stdout w /\ wire w' = wire w /\
  stream_out_q w' = stream_out_q w /\
  (forall m, msg = Ok (Some m) ->
     HasField m type_ = Ok true /\
     exists t, In (t, Some m) (stream_in_q w) /\ (t <= clock w + timeout)%Q).
Proof.
  intros Ht. unfold get_stream_packet.
  pose proof (get_stream_packet_loop_bounds type_ timeout (clock w)
                (stream_in_q w) (clock w)) as H.
  destruct (get_stream_packet_loop _ _ _ _ _) as [[o pending] now].
  destruct H as (H1 & H2 & H3 & H4); [lra | lra |].
  assert (H5 : forall m, wait_value o = Ok (Some m) -> o = wait_msg m).
  { intros m. destruct o; cbn [wait_value]; congruence. }
  destruct o;
    cbn [receiver waited clock stream_in_q stdout wire stream_out_q];
    (split; [exact H1 | split; [exact H2 | split; [exact H3 |]]]);
    (split; [reflexivity | split; [reflexivity | split; [reflexivity |]]]);
    intros m Hm; apply H4, H5, Hm.
Qed.

Lemma get_stream_packet_bounded_witness :
  let '(msg, w') :=
    get_stream_packet (lit "arbitration") 2
      (world_receiving [((1 # 2)%Q, Some rep_packet);
                        (3%Q, Some (rep_arbitration 0))]) in
  (0 <= clock w')%Q /\ (clock w' <= 0 + 2)%Q /\
  (exists consumed,
      [((1 # 2)%Q, Some rep_packet); (3%Q, Some (rep_arbitration 0))]
      = consumed ++ stream_in_q w') /\
  stdout w' = [] /\ wire w' = [] /\ stream_out_q w' = [] /\
  (forall m, msg = Ok (Some m) ->
     HasField m (lit "arbitration") = Ok true /\
     exists t, In (t, Some m)
                 [((1 # 2)%Q, Some rep_packet); (3%Q, Some (rep_arbitration 0))]
               /\ (t <= 0 + 2)%Q).
Proof.
  apply (get_stream_packet_bounded (lit "arbitration") 2
           (world_receiving [((1 # 2)%Q, Some rep_packet);
                             (3%Q, Some (rep_arbitration 0))])).
  cbn. discriminate.
Defined.

(** The loop ends at the sentinel that the receiver leaves when the stream
    fails. *)
Lemma get_stream_packet_loop_sentinel
    (type_ : str) (timeout start arrival : Q)
    (after : list (Q * option StreamMessageResponse)) :
  (arrival <= start + timeout)%Q ->
  forall before now,
    Forall (passed_over type_ (start + timeout)) before ->
    (start <= now)%Q -> (now <= start + timeout)%Q ->
    exists now',
      get_stream_packet_loop type_ timeout start
        (before ++ (arrival, None) :: after) now
      = (wait_sentinel, after, now').
Proof.
  intros Harr before.
  induction before as [| [t msg] before IH]; intros now Hb H1 H2.
  - cbn [app get_stream_packet_loop].
    destruct (loop_step_in_time timeout start now arrival H1 H2 Harr) as [-> ->].
    eauto.
  - inversion Hb as [| ? ? [Ht [m [Hm Hf]]] Hb']; subst.
    cbn [fst snd] in Ht, Hm. subst msg.
    cbn [app get_stream_packet_loop].
    destruct (loop_step_in_time timeout start now t H1 H2 Ht) as [-> ->].
    rewrite Hf. cbn [negb].
    destruct (Qmax_bounds now t start (start + timeout)%Q H1 H2 Ht).
    now apply IH.
Qed.

(** X18: the death of the stream ends the handshake at once. When the
    receiver's sentinel arrives within the timeout, after messages of other
    kinds only, [get_stream_packet] returns nothing and the handshake exits
    with status 1, although an arbitration reply may be queued behind the
    sentinel: what follows the sentinel is left in the queue. *)
Theorem handshake_stream_death
    (self : P4RuntimeClient) (w : world)
    (before after : list (Q * option StreamMessageResponse)) (arrival : Q) :
  stream_in_q w = before ++ (arrival, None) :: after ->
  Forall (passed_over (lit "arbitration") (clock w + 2)) before ->
  (arrival <= clock w + 2)%Q ->
  exists w',
    handshake self w = (Raise (SystemExit 1), w') /\
    stream_in_q w' = after /\ stdout w' = stdout w /\ wire w' = wire w.
Proof.
  intros Hq Hb Harr.
  destruct (get_stream_packet_loop_sentinel (lit "arbitration") 2 (clock w)
              arrival after Harr before (clock w) Hb) as [now' Hloop];
    [lra | lra |].
  unfold handshake, get_stream_packet.
  cbn [stream_out_put stream_in_q clock]. rewrite Hq, Hloop.
  cbn [wait_value]. eexists. repeat split.
Qed.

Lemma handshake_stream_death_witness :
  exists w',
    handshake demo_client
      (world_receiving [((1 # 2)%Q, Some rep_packet); (1%Q, None);
                        (1%Q, Some (rep_arbitration 0))])
    = (Raise (SystemExit 1), w') /\
    stream_in_q w' = [(1%Q, Some (rep_arbitration 0))] /\
    stdout w' = [] /\ wire w' = [].
Proof.
  apply (handshake_stream_death demo_client
           (world_receiving [((1 # 2)%Q, Some rep_packet); (1%Q, None);
                             (1%Q, Some (rep_arbitration 0))])
           [((1 # 2)%Q, Some rep_packet)] [(1%Q, Some (rep_arbitration 0))] 1%Q).
  - reflexivity.
  - constructor; [| constructor]. split.
    + cbn. discriminate.
    + exists rep_packet. split; reflexivity.
  - cbn. discriminate.
Defined.

(** X19: messages of other kinds are lost to later readers. When a
    message with the requested field arrives by the deadline, after
    messages of other kinds only, [get_stream_packet] returns it, and the
    queue is left with what followed it: the messages passed over are
    gone. *)
Theorem get_stream_packet_discards
    (type_ : str) (timeout : Q) (w : world)
    (before after : list (Q * option StreamMessageResponse))
    (arrival : Q) (rep : StreamMessageResponse) :
  (0 <= timeout)%Q ->
  stream_in_q w = before ++ (arrival, Some rep) :: after ->
  HasField rep type_ = Ok true ->
  Forall (passed_over type_ (clock w + timeout)) before ->
  (arrival <= clock w + timeout)%Q ->
  exists w',
    get_stream_packet type_ timeout w = (Ok (Some rep), w') /\
    stream_in_q w' = after.
Proof.
  intros Ht Hq Hrep Hb Harr.
  destruct (get_stream_packet_loop_delivers type_ timeout (clock w) rep
              arrival after Hrep Harr before (clock w) Hb) as [now' Hloop];
    [lra | lra |].
  unfold get_stream_packet. rewrite Hq, Hloop. eexists. split; reflexivity.
Qed.

Lemma get_stream_packet_discards_witness :
  exists w',
    get_stream_packet (lit "arbitration") 2
      (world_receiving [((1 # 2)%Q, Some rep_packet);
                        (1%Q, Some (rep_arbitration 0));
                        (1%Q, Some rep_digest)])
    = (Ok (Some (rep_arbitration 0)), w') /\
    stream_in_q w' = [(1%Q, Some rep_digest)].
Proof.
  apply (get_stream_packet_discards (lit "arbitration") 2
           (world_receiving [((1 # 2)%Q, Some rep_packet);
                             (1%Q, Some (rep_arbitration 0));
                             (1%Q, Some rep_digest)])
           [((1 # 2)%Q, Some rep_packet)] [(1%Q, Some rep_digest)] 1%Q
           (rep_arbitration 0)).
  - cbn. discriminate.
  - reflexivity.
  - reflexivity.
  - constructor; [| constructor]. split.
    + cbn. discriminate.
    + exists rep_packet. split; reflexivity.
  - cbn. discriminate.
Defined.

(** ** Commands *)

Lemma get_action_params_loop_none (acts : list Action) (action_name : str) :
  (forall a, In a acts -> pre_name (action_preamble a) <> action_name) ->
  get_action_params_loop acts action_name = None.
Proof.
  induction acts as [| a rest IH]; intros H; [reflexivity |].
  cbn [get_action_params_loop].
  destruct (str_eqb (pre_name (action_preamble a)) action_name) eqn:E.
  - apply str_eqb_eq in E. exfalso. apply (H a); [now left | exact E].
  - apply IH. intros a' Hin. apply H. now right.
Qed.

Lemma chars_digits (text : str) :
  Forall (fun c => isdigit_char c = is_digit c) text ->
  Forall (fun i => isdigit i = decimal i /\
                   (decimal i = true -> digits_value i < 2 ^ 32))
         (chars text) /\
  member_refs (chars text)
  = map (fun c => {| member_id := digit_val c |}) (filter is_digit text).
Proof.
  unfold member_refs, chars.
  induction 1 as [| c text Hc _ [IH1 IH2]]; [split; [constructor | reflexivity] |].
  cbn [map]. split.
  - constructor; [| exact IH1]. split.
    + unfold isdigit, decimal. cbn [forallb]. now rewrite Hc.
    + unfold decimal, digits_value. cbn [forallb fold_left].
      rewrite andb_true_r. intros Hd%is_digit_range.
      unfold digit_val. lia.
  - cbn [filter decimal forallb]. rewrite andb_true_r.
    destruct (is_digit c); [| exact IH2].
    cbn [map]. rewrite IH2. reflexivity.
Qed.

Section MoreCommands.

Variable inet_aton : str -> result bytes.
Variable Status_ParseFromString : bytes -> result Status.
Variable stub_GetForwardingPipelineConfig : Z -> result P4Info.
Variable stub_Write : WriteRequest -> result unit.

Lemma p4ctl_mod_group_quiet (client : P4RuntimeClient)
    (bridge tbl_name flow : str) (w : world) :
  fst (p4ctl_mod_group client bridge tbl_name flow w) <> None /\
  wire (snd (p4ctl_mod_group client bridge tbl_name flow w)) = wire w.
Proof.
  unfold p4ctl_mod_group, bindM, lift.
  destruct (parse_profile_group flow) as [[[group_id members] max_size] | e];
    cbn [fst snd]; [| split; [discriminate | reflexivity]].
  destruct (py_int group_id) as [g | e];
    cbn [fst snd]; [| split; [discriminate | reflexivity]].
  destruct (g =? 0); split; try discriminate; reflexivity.
Qed.

(** X20: modify-action-profile-group sends nothing. For every flow, well
    formed or not, [p4ctl_mod_group] returns (with a value or an exception
    of the parser) without a call on the stub; under [with_client] the only
    call is the opening of the stream, and no write follows it. *)
Theorem p4ctl_mod_group_sends_nothing
    (client : P4RuntimeClient) (bridge tbl_name flow : str) (w : world) :
  wire (snd (p4ctl_mod_group client bridge tbl_name flow w)) = wire w /\
  wire (snd (with_client
               (fun client => p4ctl_mod_group client bridge tbl_name flow) w))
  = wire w ++ [rpc_StreamChannel].
Proof.
  split; [apply p4ctl_mod_group_quiet |].
  apply with_client_wire. intros c w1. apply p4ctl_mod_group_quiet.
Qed.

(** X21: an action that the schema does not name. In
    add-action-profile-member with a member id other than 0, the action's
    parameters are looked up by canonical name before the member is built:
    when no action of the schema has that canonical name (it may be an
    alias), the schema is fetched and the command raises [TypeError]; no
    write is sent. *)
Theorem p4ctl_add_member_unknown_action
    (fuel : nat) (client : P4RuntimeClient) (bridge tbl_name flow : str)
    (w : world) (action_ : str) (action_data : list pyval) (mem_id : str)
    (m : Z) (p4info : P4Info) :
  parse_profile_mem inet_aton flow = Ok (action_, action_data, mem_id) ->
  py_int mem_id = Ok m -> m <> 0 ->
  stub_GetForwardingPipelineConfig (device_id client) = Ok p4info ->
  (forall a, In a (actions p4info) ->
             pre_name (action_preamble a) <> action_) ->
  p4ctl_add_member inet_aton Status_ParseFromString
    stub_GetForwardingPipelineConfig stub_Write
    fuel client bridge tbl_name flow w
  = (Some (Raise TypeError),
     call (rpc_GetForwardingPipelineConfig (device_id client)) w).
Proof.
  intros Hparse Hint Hm Hget Hno.
  unfold p4ctl_add_member, bindM, lift. rewrite Hparse. cbn [fst snd].
  rewrite Hint. apply Z.eqb_neq in Hm. rewrite Hm.
  unfold fetch_p4info, bindM, get_p4info, ret, lift. rewrite Hget.
  cbn [parse_p4runtime_error message_truthy negb].
  unfold action_params_of, get_action_params.
  now rewrite (get_action_params_loop_none _ _ Hno).
Qed.

(** X22: one member for each digit. add-action-profile-group hands the
    text of [reference_members] to the builder, which reads it character
    by character. When the group id is not 0, the schema is fetched, the
    action profile is found and the device accepts the write, the command
    sends one write request with one INSERT of a group whose members are
    the decimal digits of the text, in order, one member for each digit: a
    member id of several digits becomes several members. (The text is
    taken to hold no superscript digit, the group id to fit its [uint32]
    field and the size its [int32] field: the builder raises [ValueError]
    on a number that does not fit.) *)
Theorem p4ctl_add_group_members_by_digit
    (fuel : nat) (client : P4RuntimeClient) (bridge tbl_name flow : str)
    (w : world) (group_id members max_size : str) (g ms pid : Z)
    (p4info : P4Info) :
  parse_profile_group flow = Ok (group_id, members, max_size) ->
  py_int group_id = Ok g -> g <> 0 -> 0 <= g < 2 ^ 32 ->
  py_int max_size = Ok ms -> - 2 ^ 31 <= ms < 2 ^ 31 ->
  Forall (fun c => isdigit_char c = is_digit c) members ->
  stub_GetForwardingPipelineConfig (device_id client) = Ok p4info ->
  get_action_profiles_id p4info tbl_name = Ok pid ->
  (forall req, stub_Write req = Ok tt) ->
  let apg :=
    {| apg_action_profile_id := pid; apg_group_id := g;
       apg_members :=
         map (fun c => {| member_id := digit_val c |})
             (filter is_digit members);
       apg_max_size := ms |} in
  let req :=
    {| wr_device_id := device_id client;
       wr_election_id := {| high := fst (election_id client);
                            low := snd (election_id client) |};
       updates := [ {| update_type := INSERT;
                       update_entity := entity_action_profile_group apg |} ] |} in
  p4ctl_add_group Status_ParseFromString
    stub_GetForwardingPipelineConfig stub_Write
    fuel client bridge tbl_name flow w
  = (Some (Ok tt),
     call (rpc_Write req)
       (call (rpc_GetForwardingPipelineConfig (device_id client)) w)).
Proof.
  intros Hparse Hg Hnz Hgr Hms Hmsr Htext Hget Hpid Hwrite. cbv zeta.
  destruct (chars_digits members Htext) as [Hchars Hrefs].
  unfold p4ctl_add_group, bindM, lift. rewrite Hparse. cbn [fst snd].
  rewrite Hg. apply Z.eqb_neq in Hnz. rewrite Hnz.
  unfold fetch_p4info, bindM, get_p4info, ret, lift. rewrite Hget.
  cbn [parse_p4runtime_error message_truthy negb].
  rewrite Hms.
  rewrite (buildActionProfileGroup_members p4info tbl_name g ms pid
             (chars members) Hchars Hgr Hmsr Hpid), Hrefs.
  unfold write_update. rewrite Hwrite. reflexivity.
Qed.

End MoreCommands.

Lemma p4ctl_add_member_unknown_action_witness :
  p4ctl_add_member inet_aton_dotted (parse_as demo_status)
    demo_GetForwardingPipelineConfig demo_Write
    5 demo_client (lit "br0") (lit "pipe.ap")
    (lit "action=a(10),member_id=1") empty_world
  = (Some (Raise TypeError),
     call (rpc_GetForwardingPipelineConfig (device_id demo_client)) empty_world).
Proof.
  apply (p4ctl_add_member_unknown_action inet_aton_dotted (parse_as demo_status)
           demo_GetForwardingPipelineConfig demo_Write
           5 demo_client (lit "br0") (lit "pipe.ap")
           (lit "action=a(10),member_id=1") empty_world
           (lit "a") [VInt 10] (lit "1") 1 demo_p4info).
  - reflexivity.
  - reflexivity.
  - discriminate.
  - reflexivity.
  - intros a [<- | []]. discriminate.
Defined.

Lemma p4ctl_add_group_members_by_digit_witness :
  p4ctl_add_group (parse_as demo_status)
    demo_GetForwardingPipelineConfig demo_Write
    5 demo_client (lit "br0") (lit "pipe.ap")
    (lit "group_id=1,reference_members=(10,2),max_size=2") empty_world
  = (Some (Ok tt),
     call (rpc_Write
             {| wr_device_id := 1;
                wr_election_id := {| high := 1; low := 0 |};
                updates :=
                  [ {| update_type := INSERT;
                       update_entity :=
                         entity_action_profile_group
                           {| apg_action_profile_id := 9; apg_group_id := 1;
                              apg_members :=
                                [ {| member_id := 1 |}; {| member_id := 0 |};
                                  {| member_id := 2 |} ];
                              apg_max_size := 2 |} |} ] |})
       (call (rpc_GetForwardingPipelineConfig 1) empty_world)).
Proof.
  apply (p4ctl_add_group_members_by_digit (parse_as demo_status)
           demo_GetForwardingPipelineConfig demo_Write
           5 demo_client (lit "br0") (lit "pipe.ap")
           (lit "group_id=1,reference_members=(10,2),max_size=2") empty_world
           (lit "1") (lit "(10,2)") (lit "2") 1 2 9 demo_p4info).
  - reflexivity.
  - reflexivity.
  - discriminate.
  - lia.
  - reflexivity.
  - lia.
  - repeat constructor.
  - reflexivity.
  - reflexivity.
  - reflexivity.
Defined.

(** ** Addresses as action parameters *)

Lemma hex_char_plain (c : ascii) :
  is_hex c = true ->
  ascii_eqb c "."%char = false /\ ascii_eqb c "010"%char = false.
Proof.
  destruct c as [[] [] [] [] [] [] [] []]; cbv; try discriminate; intros _;
    split; reflexivity.
Qed.

Lemma mac_groups_chars (n : nat) :
  forall m,
    mac_groups n m = true ->
    forallb (fun c => negb (ascii_eqb c "."%char)) m = true /\
    forallb (fun c => negb (ascii_eqb c "010"%char)) m = true.
Proof.
  induction n as [| n IH]; intros m Hm.
  - destruct m as [| a [| b [| ? ?]]]; try discriminate.
    cbn [mac_groups] in Hm. apply andb_true_iff in Hm as [Ha Hb].
    destruct (hex_char_plain a Ha) as [A1 A2].
    destruct (hex_char_plain b Hb) as [B1 B2].
    cbn [forallb]. now rewrite A1, A2, B1, B2.
  - destruct m as [| a [| b [| c rest]]]; try discriminate.
    cbn [mac_groups] in Hm.
    apply andb_true_iff in Hm as [Hm Hrest].
    apply andb_true_iff in Hm as [Hm Hc].
    apply andb_true_iff in Hm as [Ha Hb].
    apply Ascii.eqb_eq in Hc. subst c.
    destruct (hex_char_plain a Ha) as [A1 A2].
    destruct (hex_char_plain b Hb) as [B1 B2].
    destruct (IH rest Hrest) as [R1 R2].
    cbn [forallb]. rewrite A1, A2, B1, B2, R1, R2. split; reflexivity.
Qed.

Lemma ip_groups_needs_dot (k : nat) (s : str) :
  forallb (fun c => negb (ascii_eqb c "."%char)) s = true ->
  ip_groups (S k) s = false.
Proof.
  intros H. cbn [ip_groups].
  destruct (span_digits s) as [ds r] eqn:E.
  destruct (span_digits_spec s ds r E) as [-> _].
  destruct r as [| c r]; [apply andb_false_r |].
  rewrite forallb_app in H. apply andb_true_iff in H as [_ H].
  cbn [forallb] in H. apply andb_true_iff in H as [Hc _].
  apply negb_true_iff in Hc. rewrite Hc. apply andb_false_r.
Qed.

Lemma mac_not_ipv4 (m : str) : mac_groups 5 m = true -> matchesIPv4 m = false.
Proof.
  intros Hm. destruct (mac_groups_chars 5 m Hm) as [Hdot Hnl].
  unfold matchesIPv4. rewrite (dollar_no_newline _ m Hnl).
  now apply ip_groups_needs_dot.
Qed.

Lemma octets_chars (parts : list str) :
  Forall octet_text parts ->
  forallb (fun c => negb (ascii_eqb c ":"%char)) (str_join (lit ".") parts) = true /\
  forallb (fun c => negb (ascii_eqb c "010"%char)) (str_join (lit ".") parts) = true.
Proof.
  assert (Hd : forall p, forallb is_digit p = true ->
             forallb (fun c => negb (ascii_eqb c ":"%char)) p = true /\
             forallb (fun c => negb (ascii_eqb c "010"%char)) p = true).
  { intros p Hp. split; apply forallb_forall; intros c Hc;
      rewrite forallb_forall in Hp; apply negb_true_iff, digit_not_char;
      auto; [right | left]; reflexivity. }
  induction 1 as [| p parts [Hp _] _ [IH1 IH2]]; [split; reflexivity |].
  destruct (Hd p Hp) as [P1 P2].
  destruct parts as [| q parts]; [exact (conj P1 P2) |].
  change (str_join (lit ".") (p :: q :: parts))
    with (p ++ "."%char :: str_join (lit ".") (q :: parts)).
  rewrite !forallb_app. cbn [forallb]. rewrite P1, P2, IH1, IH2.
  split; reflexivity.
Qed.

Lemma mac_groups_needs_colon (k : nat) (s : str) :
  forallb (fun c => negb (ascii_eqb c ":"%char)) s = true ->
  mac_groups (S k) s = false.
Proof.
  intros H. destruct s as [| a [| b [| c rest]]]; try reflexivity.
  cbn [forallb] in H.
  apply andb_true_iff in H as [_ H]. apply andb_true_iff in H as [_ H].
  apply andb_true_iff in H as [Hc _]. apply negb_true_iff in Hc.
  cbn [mac_groups]. rewrite Hc. now rewrite andb_false_r.
Qed.

Lemma ipv4_not_mac (a : str) : ip_groups 3 a = true -> matchesMac a = false.
Proof.
  intros Ha. apply ip_groups_spec in Ha as (parts & _ & F & ->).
  destruct (octets_chars parts F) as [Hcolon Hnl].
  unfold matchesMac. rewrite (dollar_no_newline _ _ Hnl).
  now apply mac_groups_needs_colon.
Qed.

(** X23: an IPv4 address gives the same bytes on both routes. For a text
    of four dotted octets that [inet_aton] turns into four bytes,
    [parse_action] makes of it the integer of those bytes (big-endian), a
    number below [2^32]; encoding that integer for a field of 32 bits, as
    is done for an action parameter, gives the same four bytes as encoding
    the text itself, as is done for a match value. *)
Theorem ipv4_parameter_bytes
    (inet_aton : str -> result bytes) (a : str) (packed : bytes) :
  ip_groups 3 a = true ->
  inet_aton a = Ok packed -> List.length packed = 4%nat ->
  exists n,
    parse_action_value inet_aton a = Ok (VInt n) /\
    0 <= n < 2 ^ 32 /\
    encode inet_aton (VInt n) 32 = Ok (VBytes packed) /\
    encode inet_aton (VStr a) 32 = Ok (VBytes packed).
Proof.
  intros Ha Hpacked Hlen. exists (int_from_bytes_big packed).
  assert (Hip : matchesIPv4 a = true).
  { unfold matchesIPv4, dollar. now rewrite Ha. }
  assert (Hne : packed <> []) by (destruct packed; [discriminate | congruence]).
  assert (Hl : len packed = 4) by (unfold len; lia).
  split; [| split; [| split]].
  - unfold parse_action_value, encodeIPv4_base10.
    rewrite Hip, Hpacked. cbn [bind]. now rewrite Hlen.
  - pose proof (int_from_bytes_bound packed) as H. now rewrite Hl in H.
  - pose proof (encodeNum_int_from_bytes packed Hne) as E. rewrite Hl in E.
    unfold encode. cbn [bind]. change (8 * 4) with 32 in E. rewrite E.
    cbn [bind py_len]. rewrite Hl. reflexivity.
  - unfold encode, encodeIPv4. cbn [bind].
    rewrite (ipv4_not_mac a Ha), Hip, Hpacked. cbn [bind py_len].
    rewrite Hl. reflexivity.
Qed.

Lemma ipv4_parameter_bytes_witness :
  exists n,
    parse_action_value inet_aton_dotted (lit "10.0.0.1") = Ok (VInt n) /\
    0 <= n < 2 ^ 32 /\
    encode inet_aton_dotted (VInt n) 32
    = Ok (VBytes [Byte.x0a; Byte.x00; Byte.x00; Byte.x01]) /\
    encode inet_aton_dotted (VStr (lit "10.0.0.1")) 32
    = Ok (VBytes [Byte.x0a; Byte.x00; Byte.x00; Byte.x01]).
Proof.
  apply (ipv4_parameter_bytes inet_aton_dotted (lit "10.0.0.1")
           [Byte.x0a; Byte.x00; Byte.x00; Byte.x01]); reflexivity.
Defined.

(** X24: a MAC address gives the same bytes on both routes. For a text of
    the form [XX:XX:XX:XX:XX:XX], [parse_action] makes of it the integer of
    its six bytes, a number below [2^48]; encoding that integer for a
    field of 48 bits gives the same six bytes as encoding the text
    itself. *)
Theorem mac_parameter_bytes (inet_aton : str -> result bytes) (m : str) :
  mac_groups 5 m = true ->
  exists n encoded,
    parse_action_value inet_aton m = Ok (VInt n) /\
    0 <= n < 2 ^ 48 /\
    encodeMac m = Ok encoded /\
    encode inet_aton (VInt n) 48 = Ok (VBytes encoded) /\
    encode inet_aton (VStr m) 48 = Ok (VBytes encoded).
Proof.
  intros Hm. destruct (mac_groups_codec 5 m Hm) as (bs & E & L & _).
  exists (int_from_bytes_big bs), bs.
  assert (Hmac : matchesMac m = true).
  { unfold matchesMac, dollar. now rewrite Hm. }
  assert (Hne : bs <> []) by (destruct bs; [discriminate | congruence]).
  assert (Hl : len bs = 6) by (unfold len; lia).
  split; [| split; [| split; [exact E | split]]].
  - unfold parse_action_value. rewrite (mac_not_ipv4 m Hm), Hmac, E. reflexivity.
  - pose proof (int_from_bytes_bound bs) as H. now rewrite Hl in H.
  - pose proof (encodeNum_int_from_bytes bs Hne) as En. rewrite Hl in En.
    unfold encode. cbn [bind]. change (8 * 6) with 48 in En. rewrite En.
    cbn [bind py_len]. rewrite Hl. reflexivity.
  - unfold encode. cbn [bind]. rewrite Hmac, E. cbn [bind py_len].
    rewrite Hl. reflexivity.
Qed.

Lemma mac_parameter_bytes_witness :
  exists n encoded,
    parse_action_value inet_aton_dotted (lit "00:1b:44:11:3a:b7") = Ok (VInt n) /\
    0 <= n < 2 ^ 48 /\
    encodeMac (lit "00:1b:44:11:3a:b7") = Ok encoded /\
    encode inet_aton_dotted (VInt n) 48 = Ok (VBytes encoded) /\
    encode inet_aton_dotted (VStr (lit "00:1b:44:11:3a:b7")) 48
    = Ok (VBytes encoded).
Proof.
  apply (mac_parameter_bytes inet_aton_dotted (lit "00:1b:44:11:3a:b7")).
  reflexivity.
Defined.

(** ** Action parameters *)

Lemma scan_params_by_name (ps : list Param) (name : str) :
  match scan_params ps (Some name) None with
  | Some p => In p ps /\ param_name p = name
  | None => forall p, In p ps -> param_name p <> name
  end.
Proof.
  induction ps as [| x rest IH]; cbn [scan_params]; [intros ? [] |].
  destruct (str_eqb (param_name x) name) eqn:E.
  - apply str_eqb_eq in E. split; [now left | exact E].
  - destruct (scan_params rest (Some name) None) as [p |].
    + destruct IH. split; [now right | assumption].
    + intros p [<- | Hin]; [| now apply IH].
      intros Heq. apply str_eqb_eq in Heq. congruence.
Qed.

Lemma get_action_param_loop_by_name
    (acts : list Action) (action_name name : str) :
  match get_action_param_loop acts action_name (Some name) None with
  | Some p =>
      param_name p = name /\
      exists a, In a acts /\ pre_name (action_preamble a) = action_name /\
                In p (params a)
  | None =>
      forall a p, In a acts -> pre_name (action_preamble a) = action_name ->
                  In p (params a) -> param_name p <> name
  end.
Proof.
  induction acts as [| a rest IH]; cbn [get_action_param_loop].
  - intros ? ? [].
  - destruct (str_eqb (pre_name (action_preamble a)) action_name) eqn:E.
    + apply str_eqb_eq in E.
      pose proof (scan_params_by_name (params a) name) as Ha.
      destruct (scan_params (params a) (Some name) None) as [p |].
      * destruct Ha. split; [assumption |]. exists a. repeat split; auto.
        now left.
      * destruct (get_action_param_loop rest action_name (Some name) None)
          as [p |].
        -- destruct IH as [Hg (a' & Hin & Hn & Hp)]. split; [exact Hg |].
           exists a'. repeat split; auto. now right.
        -- intros a' p [<- | Hin] Hn Hp; [now apply Ha | now apply (IH a')].
    + destruct (get_action_param_loop rest action_name (Some name) None)
        as [p |].
      * destruct IH as [Hg (a' & Hin & Hn & Hp)]. split; [exact Hg |].
        exists a'. repeat split; auto. now right.
      * intros a' p [<- | Hin] Hn Hp; [| now apply (IH a')].
        apply str_eqb_eq in Hn. congruence.
Qed.

(** X25: [get_action_param] by name. The parameter returned has the name
    asked for and belongs to an action whose canonical name is
    [action_name]. When no such parameter exists the lookup fails: with
    [AttributeError] when the schema has actions, and with
    [UnboundLocalError] when it has none, because the message of the
    error reads the variable of a loop that never ran. *)
Theorem get_action_param_spec
    (p4info : P4Info) (action_name name : str) :
  match get_action_param p4info action_name (Some name) None with
  | Ok p => param_name p = name /\ param_of_action p4info action_name p
  | Raise e =>
      (forall p, param_of_action p4info action_name p -> param_name p <> name)
      /\ (actions p4info = [] -> e = UnboundLocalError)
      /\ (actions p4info <> [] -> e = AttributeError)
  end.
Proof.
  unfold get_action_param, param_of_action.
  pose proof (get_action_param_loop_by_name (actions p4info) action_name name)
    as H.
  destruct (get_action_param_loop _ _ _ _) as [p |]; [exact H |].
  destruct (actions p4info) as [| a acts] eqn:E.
  - split; [| split; [reflexivity | congruence]].
    intros p (a & [] & _).
  - split; [| split; [discriminate | reflexivity]].
    intros p (a' & Hin & Hn & Hp). now apply (H a').
Qed.

(** ** Match keys *)

Lemma split_go_not_nil (sep : str) :
  forall s skip cur, split_go sep skip s cur <> [].
Proof.
  induction s as [| c s IH]; intros skip cur; cbn [split_go]; [discriminate |].
  destruct skip; [| apply IH].
  destruct (prefixb sep (c :: s)); [discriminate | apply IH].
Qed.

Lemma dict_set_length {V} (d : list (str * V)) (k : str) (v : V) :
  (1 <= List.length (dict_set d k v))%nat /\
  (List.length d <= List.length (dict_set d k v) <= S (List.length d))%nat.
Proof.
  induction d as [| [k' v'] d IH]; cbn [dict_set List.length]; [lia |].
  destruct (str_eqb k' k); cbn [List.length]; lia.
Qed.

Lemma parse_match_key_loop_length (mk_fields : list str) :
  forall acc d,
    parse_match_key_loop mk_fields acc = Ok d ->
    (List.length acc <= List.length d
     <= List.length acc + List.length mk_fields)%nat /\
    (mk_fields <> [] -> (1 <= List.length d)%nat).
Proof.
  induction mk_fields as [| f rest IH]; intros acc d; cbn [parse_match_key_loop].
  - intros [= <-]. split; [cbn; lia | congruence].
  - destruct (item (split f (lit "=")) 1) as [m1 |]; cbn [bind]; [| discriminate].
    destruct (contains m1 (lit "/")).
    + destruct (item (split m1 (lit "/")) 0) as [l0 |]; cbn [bind]; [| discriminate].
      destruct (item (split m1 (lit "/")) 1) as [l1 |]; cbn [bind]; [| discriminate].
      destruct (py_int l1) as [n |]; cbn [bind]; [| discriminate].
      destruct (item (split f (lit "=")) 0) as [m0 |]; cbn [bind]; [| discriminate].
      intros H. apply IH in H as [H1 _].
      pose proof (dict_set_length acc m0 (VTuple [VStr l0; VInt n])).
      cbn [List.length]. split; [lia | intros _; lia].
    + destruct (item (split f (lit "=")) 0) as [m0 |]; cbn [bind]; [| discriminate].
      intros H. apply IH in H as [H1 _].
      pose proof (dict_set_length acc m0 (VStr m1)).
      cbn [List.length]. split; [lia | intros _; lia].
Qed.

(** X26: a parsed match key is never empty. When [parse_match_key]
    returns, its dict has at least one entry and at most one for each
    comma-separated field; so a table entry that [buildTableEntry] builds
    from it has one match field for each entry of the dict, at least one:
    the commands that parse a key cannot build an entry without a match. *)
Theorem parse_match_key_not_empty
    (inet_aton : str -> result bytes) (key : str) (d : list (str * pyval))
    (p4info : P4Info) (table_name : str) (default_action : bool)
    (action_name : option str) (action_params : option (list (str * pyval)))
    (priority_ : option Z) (group_id member_id_ : Z) :
  parse_match_key key = Ok d ->
  (1 <= List.length d <= List.length (split key (lit ",")))%nat /\
  forall te,
    buildTableEntry inet_aton p4info table_name (Some d) default_action
      action_name action_params priority_ group_id member_id_ = Ok te ->
    List.length (match_ te) = List.length d /\ match_ te <> [].
Proof.
  unfold parse_match_key. intros Hparse.
  destruct (parse_match_key_loop_length _ _ _ Hparse) as [[_ Hle] Hge].
  assert (H1 : (1 <= List.length d)%nat).
  { apply Hge. apply split_go_not_nil. }
  split; [cbn [List.length] in Hle; lia |].
  intros te. unfold buildTableEntry.
  assert (Ht : truthy_dict (Some d) = true).
  { destruct d; [cbn in H1; lia | reflexivity]. }
  rewrite Ht. cbn [items]. intros H.
  bind_inv H tid Htid. bind_inv H prio Hprio. bind_inv H m Hm.
  bind_inv H act Hact. bind_inv H act' Hact'. bind_inv H act'' Hact''.
  injection H as <-. cbn [match_].
  apply comprehension_length in Hm. split; [exact Hm |].
  destruct m; [cbn in Hm; lia | discriminate].
Qed.

Lemma parse_match_key_not_empty_witness :
  (1 <= List.length [(lit "f", VStr (lit "5"))]
   <= List.length (split (lit "f=5") (lit ",")))%nat /\
  forall te,
    buildTableEntry inet_aton_dotted demo_p4info (lit "pipe.t")
      (Some [(lit "f", VStr (lit "5"))]) false None None None 0 0 = Ok te ->
    List.length (match_ te) = List.length [(lit "f", VStr (lit "5"))] /\
    match_ te <> [].
Proof.
  apply (parse_match_key_not_empty inet_aton_dotted (lit "f=5")
           [(lit "f", VStr (lit "5"))] demo_p4info (lit "pipe.t") false
           None None None 0 0).
  reflexivity.
Defined.
